(** * Vote feedback and chat-turn coordination: a shallow embedding

    The development follows three source files of the repository:

    - [src/components/message-actions.tsx]: the [PureMessageActions]
      component, its render guard, the disabled state of the vote controls
      and the two vote click handlers;
    - [src/app/api/vote/route.ts]: the [GET] and [PATCH] route handlers;
    - the [Chat] component, whose [useChat] callbacks refresh the history
      list and raise the error notice.

    Browser and library behaviour the handlers rely on ([fetch],
    [toast.promise], SWR's [mutate], [useChat]) is modelled as explicit
    state passing over a client state; the persistence helpers of
    [@/data/user/chat] are binders of the route handlers. *)

From stdpp Require Import base option list strings gmap.

Open Scope string_scope.
Open Scope list_scope.

(* ===================================================================== *)
(** * Client side: [message-actions.tsx]                                  *)
(* ===================================================================== *)

(** The row type [WorkspaceChatVote] of [@/types], with the four fields the
    handlers write. *)
Record WorkspaceChatVote := mkVote {
  chat_id : string;
  message_id : string;
  is_upvoted : bool;
  user_id : string;
}.

#[global] Instance WorkspaceChatVote_eq_dec : EqDecision WorkspaceChatVote.
Proof. solve_decision. Defined.

(** Modelled from the spec: the [Message] type of the [ai] package, of which
    the component reads [id], [role] and [parts]; the roles are those of
    the spec's data model ([role: user|assistant|system]). *)
Inductive Role := user | assistant | system.

#[global] Instance Role_eq_dec : EqDecision Role.
Proof. solve_decision. Defined.

(** A JavaScript string as its UTF-16 code units; [trim] is defined on
    code units, so the text of the parts is kept at that precision. *)
Abbreviation jsstring := (list N).

(** A message part: a text part with its [text], or a part of another
    [type] (reasoning, tool invocation, source, file, step start). *)
Inductive Part :=
  | text_part (content : jsstring)
  | other_part (kind : string).

#[global] Instance Part_eq_dec : EqDecision Part.
Proof. solve_decision. Defined.

(** [parts] is optional: [None] is a message without [parts]. *)
Record Message := mkMessage {
  id : string;
  role : Role;
  parts : option (list Part);
}.

(** The props of [PureMessageActions]; [vote] is [WorkspaceChatVote |
    undefined]. *)
Record Props := mkProps {
  chatId : string;
  message : Message;
  vote : option WorkspaceChatVote;
  isLoading : bool;
}.

(** [useLoggedInUser()]: the component reads [user.id] only. *)
Record User := mkUser { uid : string }.

(** [disabled={vote?.is_upvoted}]: [undefined] (not disabled) without a
    vote. *)
Definition upvoteDisabled (vote : option WorkspaceChatVote) : bool :=
  match vote with
  | None => false
  | Some v => is_upvoted v
  end.

(** [disabled={vote && !vote.is_upvoted}]: [undefined] (not disabled)
    without a vote. *)
Definition downvoteDisabled (vote : option WorkspaceChatVote) : bool :=
  match vote with
  | None => false
  | Some v => negb (is_upvoted v)
  end.

(** The SWR key [`/api/vote?chatId=${chatId}`]. *)
Definition voteKey (chatId : string) : string := "/api/vote?chatId=" +:+ chatId.

(** The function handed to [mutate] by both click handlers; they differ in
    the literal [is_upvoted] only.  [None] is [currentVotes === undefined]
    (an empty array is truthy in JavaScript and takes the second branch). *)
Definition votesUpdater (chatId messageId userId : string) (isUpvoted : bool)
    (currentVotes : option (list WorkspaceChatVote)) : list WorkspaceChatVote :=
  match currentVotes with
  | None => []
  | Some currentVotes =>
      let votesWithoutCurrent :=
        filter (fun vote => message_id vote <> messageId) currentVotes in
      votesWithoutCurrent ++
        [ {| chat_id := chatId; message_id := messageId;
             is_upvoted := isUpvoted; user_id := userId |} ]
  end.

(** ** Client state: SWR cache, toasts, network, pending promises *)

(** Toasts of [sonner], by kind. *)
Inductive Toast :=
  | toast_loading (msg : string)
  | toast_success (msg : string)
  | toast_error (msg : string).

(** The JSON body of a [PATCH /api/vote] request.  [None] is a field that
    is absent from the object ([undefined] after destructuring). *)
Record VoteBody := mkVoteBody {
  body_chatId : option string;
  body_messageId : option string;
  body_type : option string;
}.

(** How a [fetch] promise settles: fulfilled with a response (of which only
    the status matters here) or rejected when no response was obtained. *)
Inductive FetchResult :=
  | Fulfilled (status : nat)
  | Rejected.

(** [response.ok]: the status is in the range 200-299. *)
Definition response_ok (status : nat) : bool :=
  (200 <=? status)%nat && (status <=? 299)%nat.

(** The SWR cache of vote lists by key; an absent key is [undefined]
    (nothing fetched yet). *)
Abbreviation Cache := (gmap string (list WorkspaceChatVote)).

(** [mutate(key, fn, { revalidate: false })]: the cached data of [key] is
    replaced by [fn] applied to the current data; nothing is refetched. *)
Definition mutate (key : string)
    (fn : option (list WorkspaceChatVote) -> list WorkspaceChatVote)
    (cache : Cache) : Cache :=
  <[key := fn (cache !! key)]> cache.

(** The callbacks handed to [toast.promise]: [success] runs against the
    cache and returns the message to show, [error] is a fixed message. *)
Record PromiseToast := mkPromiseToast {
  loading : string;
  success : Cache -> Cache * string;
  error : string;
}.

Record Client := mkClient {
  swr : Cache;
  toasts : list Toast;
  requests : list VoteBody;
  pending : list PromiseToast;
}.

(** [fetch('/api/vote', { method: 'PATCH', body })]: the request leaves at
    once; its promise is settled later by [settle]. *)
Definition fetch (body : VoteBody) (c : Client) : Client :=
  {| swr := swr c; toasts := toasts c;
     requests := requests c ++ [body]; pending := pending c |}.

(** [toast.promise(promise, data)]: shows the loading toast and keeps the
    callbacks until the promise settles. *)
Definition toast_promise (data : PromiseToast) (c : Client) : Client :=
  {| swr := swr c; toasts := toasts c ++ [toast_loading (loading data)];
     requests := requests c; pending := pending c ++ [data] |}.

(** The [onClick] handler of the upvote button. *)
Definition onClick_upvote (p : Props) (u : User) (c : Client) : Client :=
  let upvote :=
    fetch {| body_chatId := Some (chatId p);
             body_messageId := Some (id (message p));
             body_type := Some "up" |} in
  toast_promise
    {| loading := "Upvoting Response...";
       success := fun cache =>
         (mutate (voteKey (chatId p))
            (votesUpdater (chatId p) (id (message p)) (uid u) true) cache,
          "Upvoted Response!");
       error := "Failed to upvote response." |}
    (upvote c).

(** The [onClick] handler of the downvote button. *)
Definition onClick_downvote (p : Props) (u : User) (c : Client) : Client :=
  let downvote :=
    fetch {| body_chatId := Some (chatId p);
             body_messageId := Some (id (message p));
             body_type := Some "down" |} in
  toast_promise
    {| loading := "Downvoting Response...";
       success := fun cache =>
         (mutate (voteKey (chatId p))
            (votesUpdater (chatId p) (id (message p)) (uid u) false) cache,
          "Downvoted Response!");
       error := "Failed to downvote response." |}
    (downvote c).

(** ** The copy button *)

(** [part.type === 'text'] *)
Definition is_text_part (p : Part) : bool :=
  match p with
  | text_part _ => true
  | other_part _ => false
  end.

(** [part.text], read on the parts that passed the filter. *)
Definition part_text (p : Part) : jsstring :=
  match p with
  | text_part content => content
  | other_part _ => []
  end.

(** [Array.prototype.join]: the separator goes between the elements. *)
Fixpoint join (sep : jsstring) (l : list jsstring) : jsstring :=
  match l with
  | [] => []
  | [x] => x
  | x :: rest => x ++ sep ++ join sep rest
  end.

(** ECMAScript WhiteSpace and LineTerminator code points, all of which are
    single code units: TAB, LF, VT, FF, CR, SP, NBSP, U+1680, U+2000 to
    U+200A, LS, PS, U+202F, U+205F, U+3000 and U+FEFF. *)
Definition isWhiteSpace (c : N) : bool :=
  ((9 <=? c) && (c <=? 13) || (c =? 32) || (c =? 160) || (c =? 5760)
   || (8192 <=? c) && (c <=? 8202) || (c =? 8232) || (c =? 8233)
   || (c =? 8239) || (c =? 8287) || (c =? 12288) || (c =? 65279))%N.

(** A text of white space only; the empty text is blank. *)
Definition blank (s : jsstring) : Prop :=
  Forall (fun c => isWhiteSpace c = true) s.

(** [String.prototype.trimStart] *)
Fixpoint trimStart (s : jsstring) : jsstring :=
  match s with
  | [] => []
  | c :: s' => if isWhiteSpace c then trimStart s' else s
  end.

(** [String.prototype.trim]: white space is removed from both ends. *)
Definition trim (s : jsstring) : jsstring :=
  rev (trimStart (rev (trimStart s))).

(** [message.parts?.filter(...).map(...).join('\n').trim()]; [None] is
    [undefined], for a message without [parts]. *)
Definition textFromParts (parts : option (list Part)) : option jsstring :=
  match parts with
  | None => None
  | Some parts =>
      Some (trim (join [10%N] (part_text <$> List.filter is_text_part parts)))
  end.

(** What the copy handler acts on: the clipboard and the toasts. *)
Record CopyUI := mkCopyUI {
  clipboard : option jsstring;
  copy_toasts : list Toast;
}.

(** [copyToClipboard] of [useCopyToClipboard]: it writes the text when the
    clipboard accepts it and reports whether it did; it does not throw. *)
Definition copyToClipboard (accepts : bool) (text : jsstring) (ui : CopyUI)
    : bool * CopyUI :=
  if accepts
  then (true, {| clipboard := Some text; copy_toasts := copy_toasts ui |})
  else (false, ui).

(** The [onClick] handler of the copy button. *)
Definition onClick_copy (accepts : bool) (parts : option (list Part))
    (ui : CopyUI) : CopyUI :=
  match textFromParts parts with
  | None | Some [] =>
      {| clipboard := clipboard ui;
         copy_toasts := copy_toasts ui ++ [toast_error "There's no text to copy!"] |}
  | Some textFromParts =>
      let '(_, ui') := copyToClipboard accepts textFromParts ui in
      {| clipboard := clipboard ui';
         copy_toasts := copy_toasts ui' ++ [toast_success "Copied to clipboard!"] |}
  end.

(** ** The render *)

(** What the component renders when it does not return [null]: the copy
    button with its [onClick], and the two vote buttons with their
    [disabled] attribute and their [onClick].  The handlers are the
    closures of this render over [chatId] and [message]; the argument of
    the copy handler is whether the clipboard accepts the text when the
    button is clicked, the [User] argument of the vote handlers is the user
    of [useLoggedInUser()]. *)
Record Controls := mkControls {
  copy_onClick : bool -> CopyUI -> CopyUI;
  upvote_disabled : bool;
  upvote_onClick : User -> Client -> Client;
  downvote_disabled : bool;
  downvote_onClick : User -> Client -> Client;
}.

(** The render function: [None] is the component's [return null]. *)
Definition PureMessageActions (p : Props) : option Controls :=
  if isLoading p then None
  else if decide (role (message p) = user) then None
  else Some {| copy_onClick := fun accepts =>
                 onClick_copy accepts (parts (message p));
               upvote_disabled := upvoteDisabled (vote p);
               upvote_onClick := onClick_upvote p;
               downvote_disabled := downvoteDisabled (vote p);
               downvote_onClick := onClick_downvote p |}.

(** ** Promises settling, and presses *)

(** The [i]-th pending promise settles with [r].  [toast.promise] runs
    [success] for a fulfilled promise whose response is ok, and shows
    [error] for a rejected promise and for a fulfilled HTTP response that
    is not ok (sonner tests [response.ok] before calling [success]). *)
Definition settle (i : nat) (r : FetchResult) (c : Client) : Client :=
  match pending c !! i with
  | None => c
  | Some data =>
      let rest := delete i (pending c) in
      let failed :=
        {| swr := swr c; toasts := toasts c ++ [toast_error (error data)];
           requests := requests c; pending := rest |} in
      match r with
      | Fulfilled status =>
          if response_ok status then
            let '(cache, msg) := success data (swr c) in
            {| swr := cache; toasts := toasts c ++ [toast_success msg];
               requests := requests c; pending := rest |}
          else failed
      | Rejected => failed
      end
  end.

(** The two vote directions of the spec's [vote(chatId, messageId,
    direction)], each bound to its button. *)
Inductive Direction := up | down.

Definition onClick (d : Direction) : Props -> User -> Client -> Client :=
  match d with
  | up => onClick_upvote
  | down => onClick_downvote
  end.

Definition isUp (d : Direction) : bool :=
  match d with up => true | down => false end.

(** A press of a vote button as the page offers it: there is a button only
    when the component rendered, a disabled button fires no click, and an
    enabled one runs the [onClick] of the render. *)
Definition press (d : Direction) (p : Props) (u : User) (c : Client) : Client :=
  match PureMessageActions p with
  | None => c
  | Some controls =>
      match d with
      | up =>
          if upvote_disabled controls then c else upvote_onClick controls u c
      | down =>
          if downvote_disabled controls then c else downvote_onClick controls u c
      end
  end.

(** The entry both handlers write for a message. *)
Definition entry (p : Props) (u : User) (d : Direction) : WorkspaceChatVote :=
  {| chat_id := chatId p; message_id := id (message p);
     is_upvoted := isUp d; user_id := uid u |}.

(** Modelled from the spec: the cached vote of a message, as the message
    list (not under src/) hands it to the component in the [vote] prop: the
    first cached entry with that [message_id]. *)
Definition voteOf (messageId : string) (votes : list WorkspaceChatVote)
    : option WorkspaceChatVote :=
  List.find (fun v => bool_decide (message_id v = messageId)) votes.

(* ===================================================================== *)
(** * Server side: [app/api/vote/route.ts]                                *)
(* ===================================================================== *)

(** An awaited call either resolves to a value or rejects (throws); it may
    change the server world [W] on the way. *)
Inductive Outcome (A : Type) :=
  | resolved (a : A)
  | threw.
Arguments resolved {A} a.
Arguments threw {A}.

Definition Async (W A : Type) : Type := W -> Outcome A * W.

Definition ret {W A} (a : A) : Async W A := fun w => (resolved a, w).

Definition await {W A B} (m : Async W A) (k : A -> Async W B) : Async W B :=
  fun w =>
    match m w with
    | (resolved a, w') => k a w'
    | (threw, w') => (threw, w')
    end.

Notation "'let_await' x ':=' m 'in' k" := (await m (fun x => k))
  (at level 10, x name, m at level 100, k at level 200, only parsing).
Notation "'do_await' m 'in' k" := (await m (fun _ => k))
  (at level 10, m at level 100, k at level 200, only parsing).

(** A chat row; the handlers only test whether one was found. *)
Record ChatRow := mkChatRow {
  chat_ident : string;
  chat_owner : string;
}.

(** The helpers imported from [@/data/user/chat] and
    [@/utils/server/serverGetLoggedInUser], whose code is not under src/:
    the handlers are written against this interface. *)
Class DataLayer (W : Type) := {
  serverGetLoggedInUser : Async W User;
  getChatById : string -> Async W (option ChatRow);
  getVotesByChatId : string -> Async W (list WorkspaceChatVote);
  voteMessage : string -> string -> string -> Async W unit;
}.

Inductive Body :=
  | text (s : string)
  | json (votes : list WorkspaceChatVote).

Record Response := mkResponse {
  body : Body;
  status : nat;
}.

(** What [await request.json()] and the destructuring of its result give:
    the fields of the parsed value, or a throw.  [request.json()] rejects
    for a body that is empty or not JSON, and destructuring the parsed
    value [null] throws; every other parsed value has the three fields,
    absent or present. *)
Inductive JsonBody :=
  | json_object (fields : VoteBody)
  | json_throws.

(** A request: the query of its URL, in order, and its body as
    [request.json()] reads it. *)
Record Request := mkRequest {
  query : list (string * string);
  request_json : JsonBody;
}.

(** [searchParams.get(name)]: the first value of [name], or [null]. *)
Fixpoint searchParams_get (name : string) (q : list (string * string))
    : option string :=
  match q with
  | [] => None
  | (k, v) :: q' => if decide (k = name) then Some v else searchParams_get name q'
  end.

(** JavaScript truthiness of a string-or-absent value: [undefined], [null]
    and the empty string are falsy. *)
Definition truthy (v : option string) : bool :=
  match v with
  | None => false
  | Some s => negb (bool_decide (s = ""))
  end.

(** A value that passed the truthiness test, as the string it is. *)
Definition str (v : option string) : string :=
  match v with
  | Some s => s
  | None => ""
  end.

(** [const { chatId, messageId, type } = await request.json()] *)
Definition await_request_json {W : Type} (request : Request) : Async W VoteBody :=
  fun w =>
    match request_json request with
    | json_object fields => (resolved fields, w)
    | json_throws => (threw, w)
    end.

Section Handlers.
Context {W : Type} `{DataLayer W}.

Definition GET (request : Request) : Async W Response :=
  let chatId := searchParams_get "chatId" (query request) in
  if negb (truthy chatId) then
    ret {| body := text "chatId is required"; status := 400 |}
  else
    do_await serverGetLoggedInUser in
    let_await chat := getChatById (str chatId) in
    match chat with
    | None => ret {| body := text "Chat not found"; status := 404 |}
    | Some _ =>
        let_await votes := getVotesByChatId (str chatId) in
        ret {| body := json votes; status := 200 |}
    end.

Definition PATCH (request : Request) : Async W Response :=
  let_await fields := await_request_json request in
  let chatId := body_chatId fields in
  let messageId := body_messageId fields in
  let type := body_type fields in
  if negb (truthy chatId) || negb (truthy messageId) || negb (truthy type) then
    ret {| body := text "messageId and type are required"; status := 400 |}
  else
    do_await serverGetLoggedInUser in
    let_await chat := getChatById (str chatId) in
    match chat with
    | None => ret {| body := text "Chat not found"; status := 404 |}
    | Some _ =>
        do_await voteMessage (str chatId) (str messageId) (str type) in
        ret {| body := text "Message voted"; status := 200 |}
    end.
End Handlers.

(** ** The persistence collaborators, from their contracts *)

(** The server world of the model: the session of the caller, the chats and
    the vote rows. *)
Record World := mkWorld {
  w_session : option User;
  w_chats : list ChatRow;
  w_votes : list WorkspaceChatVote;
}.

(** The natural key of a vote row is [(chat_id, message_id)]. *)
Definition vote_key (v : WorkspaceChatVote) : string * string :=
  (chat_id v, message_id v).

Definition same_key (row v : WorkspaceChatVote) : bool :=
  bool_decide (vote_key v = vote_key row).

(** Modelled from the spec: the overwrite in place of a vote row by a row
    with the same natural key. *)
Definition overwrite (row v : WorkspaceChatVote) : WorkspaceChatVote :=
  if same_key row v then row else v.

(** Modelled from the spec: [upsertVote(vote)], the write behind
    [voteMessage] (not under src/).  A row with the natural key of [row] is
    overwritten in place; without one, [row] is added. *)
Definition upsertVote (row : WorkspaceChatVote) (rows : list WorkspaceChatVote)
    : list WorkspaceChatVote :=
  if existsb (same_key row) rows
  then overwrite row <$> rows
  else rows ++ [row].

(** Modelled from the spec: [resolveCurrentUser() -> {id, email} |
    fails(Unauthorized)], the contract of [serverGetLoggedInUser] (not
    under src/). *)
Definition model_serverGetLoggedInUser : Async World User :=
  fun w =>
    match w_session w with
    | Some u => (resolved u, w)
    | None => (threw, w)
    end.

(** Modelled from the spec: [loadChat(id)] under [isChatOwnedByCaller], the
    contract of [getChatById] (not under src/): the chat resolves when it
    exists and the caller owns it. *)
Definition model_getChatById (chatId : string) : Async World (option ChatRow) :=
  fun w =>
    match w_session w with
    | Some u =>
        (resolved (List.find (fun c => bool_decide (chat_ident c = chatId)
                                      && bool_decide (chat_owner c = uid u))
                     (w_chats w)), w)
    | None => (resolved None, w)
    end.

(** Modelled from the spec: [loadVotes(chatId)], the contract of
    [getVotesByChatId] (not under src/): the vote rows of that chat. *)
Definition model_getVotesByChatId (chatId : string)
    : Async World (list WorkspaceChatVote) :=
  fun w => (resolved (filter (fun v => chat_id v = chatId) (w_votes w)), w).

(** Modelled from the spec: [voteMessage] (not under src/) as the upsert by
    natural key of the row [{chatId, messageId, userId, isUpvoted}] with
    [isUpvoted = (type == up)]. *)
Definition model_voteMessage (chatId messageId type : string)
    : Async World unit :=
  fun w =>
    match w_session w with
    | Some u =>
        let row := {| chat_id := chatId; message_id := messageId;
                      is_upvoted := bool_decide (type = "up");
                      user_id := uid u |} in
        (resolved tt,
         {| w_session := w_session w; w_chats := w_chats w;
            w_votes := upsertVote row (w_votes w) |})
    | None => (threw, w)
    end.

#[global] Instance model_DataLayer : DataLayer World := {
  serverGetLoggedInUser := model_serverGetLoggedInUser;
  getChatById := model_getChatById;
  getVotesByChatId := model_getVotesByChatId;
  voteMessage := model_voteMessage;
}.

(** No two vote rows share a natural key. *)
Definition unique_keys (rows : list WorkspaceChatVote) : Prop :=
  NoDup (vote_key <$> rows).

(* ===================================================================== *)
(** * The [Chat] component: the callbacks given to [useChat]              *)
(* ===================================================================== *)

(** What the callbacks of [Chat] act on: the keys handed to SWR's
    one-argument [mutate(key)] for revalidation, and the toasts raised. *)
Record ChatUI (K : Type) := mkChatUI {
  revalidated : list K;
  notices : list Toast;
}.
Arguments mkChatUI {K} _ _.
Arguments revalidated {K} _.
Arguments notices {K} _.

(** The events of one turn's stream: deltas, then [finish] or [error]. *)
Inductive Delta :=
  | text_delta (s : string)
  | artifact_delta (s : string)
  | tool_call (s : string)
  | tool_result (s : string).

Inductive StreamEvent :=
  | delta (d : Delta)
  | finish
  | error_event.

(** Modelled from the behaviour of the library, not translated: [useChat]
    is the hook of [@ai-sdk/react], whose code is not under src/.  Of the
    hook only the calls of its [onFinish] and [onError] options are
    modelled.  The events of the stream are read in order; an [error] event
    makes the read throw, [onError] is called and nothing after it is read;
    when the stream has been read to its end without an error, [onFinish]
    is called.  Deltas and the [finish] event call neither on their own. *)
Fixpoint useChat {UI : Type} (onFinish onError : UI -> UI)
    (events : list StreamEvent) (ui : UI) : UI :=
  match events with
  | [] => onFinish ui
  | error_event :: _ => onError ui
  | delta _ :: events' => useChat onFinish onError events' ui
  | finish :: events' => useChat onFinish onError events' ui
  end.

Section ChatComponent.
Context {K : Type}.
(** [getChatHistoryPaginationKey] of [./sidebar-history] (not under
    src/): the key is whatever it returns for the workspace. *)
Variable getChatHistoryPaginationKey : string -> K.

(** [onFinish: () => { mutate(getChatHistoryPaginationKey(workspaceId)) }] *)
Definition Chat_onFinish (workspaceId : string) (ui : ChatUI K) : ChatUI K :=
  {| revalidated := revalidated ui ++ [getChatHistoryPaginationKey workspaceId];
     notices := notices ui |}.

(** [onError: () => { toast.error('An error occurred, please try again!') }] *)
Definition Chat_onError (ui : ChatUI K) : ChatUI K :=
  {| revalidated := revalidated ui;
     notices := notices ui ++ [toast_error "An error occurred, please try again!"] |}.

(** One turn of the [Chat] component over the events of its stream. *)
Definition Chat (workspaceId : string) (events : list StreamEvent)
    (ui : ChatUI K) : ChatUI K :=
  useChat (Chat_onFinish workspaceId) Chat_onError events ui.
End ChatComponent.

(* ===================================================================== *)
(** * Derived notions and sample inputs                                   *)
(* ===================================================================== *)

(** The [type] field each button sends. *)
Definition type_of (d : Direction) : string :=
  match d with up => "up" | down => "down" end.

(** The request body a vote button sends. *)
Definition vote_body (d : Direction) (p : Props) : VoteBody :=
  {| body_chatId := Some (chatId p);
     body_messageId := Some (id (message p));
     body_type := Some (type_of d) |}.

(** The error message of each button's toast. *)
Definition failure_notice (d : Direction) : Toast :=
  match d with
  | up => toast_error "Failed to upvote response."
  | down => toast_error "Failed to downvote response."
  end.

(** The vote request failed: no response was obtained, or the response is
    not ok. *)
Definition mutation_failed (r : FetchResult) : bool :=
  match r with
  | Fulfilled status => negb (response_ok status)
  | Rejected => true
  end.

(** A client that has fetched nothing and has nothing in flight. *)
Definition fresh_client : Client :=
  {| swr := ∅; toasts := []; requests := []; pending := [] |}.

(** A client whose vote list of chat [c1] was fetched and is empty. *)
Definition fetched_client : Client :=
  {| swr := {[ voteKey "c1" := [] ]}; toasts := []; requests := [];
     pending := [] |}.

Definition reviewer : User := {| uid := "u1" |}.

Definition assistant_props : Props :=
  {| chatId := "c1"; message := {| id := "m1"; role := assistant; parts := None |};
     vote := None; isLoading := false |}.

Definition system_props : Props :=
  {| chatId := "c1"; message := {| id := "m0"; role := system; parts := None |};
     vote := None; isLoading := false |}.

Definition loading_props : Props :=
  {| chatId := "c1"; message := {| id := "m1"; role := assistant; parts := None |};
     vote := None; isLoading := true |}.

Definition upvoted_props : Props :=
  {| chatId := "c1"; message := {| id := "m1"; role := assistant; parts := None |};
     vote := Some (mkVote "c1" "m1" true "u1"); isLoading := false |}.

(** A server world with one chat, owned by the caller, and no vote. *)
Definition sample_world : World :=
  {| w_session := Some reviewer;
     w_chats := [ {| chat_ident := "c1"; chat_owner := "u1" |} ];
     w_votes := [] |}.

Definition patch_request (c m t : string) : Request :=
  {| query := [];
     request_json := json_object {| body_chatId := Some c;
                                    body_messageId := Some m;
                                    body_type := Some t |} |}.

(** A GET request carries no body. *)
Definition get_request (c : string) : Request :=
  {| query := [("chatId", c)]; request_json := json_throws |}.

(** A PATCH request whose body is empty, not JSON, or [null]. *)
Definition unreadable_request : Request :=
  {| query := []; request_json := json_throws |}.

(** A server world like [sample_world] for a caller that does not resolve. *)
Definition anonymous_world : World :=
  {| w_session := None;
     w_chats := [ {| chat_ident := "c1"; chat_owner := "u1" |} ];
     w_votes := [] |}.

(* ===================================================================== *)
(** * More of [message-actions.tsx]: the memo comparator                   *)
(* ===================================================================== *)

(** The comparator given to [memo]: [true] lets React keep the previous
    render.  [equal] is [fast-deep-equal], structural equality. *)
Definition MessageActions_propsAreEqual (prevProps nextProps : Props) : bool :=
  if negb (bool_decide (vote prevProps = vote nextProps)) then false
  else if negb (bool_decide (isLoading prevProps = isLoading nextProps)) then false
  else true.

(* ===================================================================== *)
(** * More of the [Chat] component: the key of its vote list              *)
(* ===================================================================== *)

(** The key of [useSWR] in [Chat]:
    [messages.length >= 2 ? `/api/vote?chatId=${id}` : null]. *)
Definition Chat_votesKey (chatId : string) (messages_length : nat)
    : option string :=
  if (2 <=? messages_length)%nat
  then Some ("/api/vote?chatId=" +:+ chatId)
  else None.

(* ===================================================================== *)
(** * The landing-page navigation: [VersionSwitcher] and [LeftNav]        *)
(* ===================================================================== *)

Record Version := mkVersion {
  label : string;
  url : string;
}.

Definition versions : list Version :=
  [ {| label := "Landing page 1"; url := "/" |};
    {| label := "Landing page 2"; url := "/version2" |} ].

(** JavaScript truthiness of a string: the empty string is falsy. *)
Definition nonempty (s : string) : bool := negb (bool_decide (s = "")).

(** [versions.find((version) => version.url === x)], where [x] may be
    [null] and then equals no url. *)
Definition versions_find (x : option string) : option Version :=
  match x with
  | None => None
  | Some x => List.find (fun version => bool_decide (url version = x)) versions
  end.

(** The trigger text of [VersionSwitcher]:
    [versions.find(...)?.label || "Select Landing Page"]. *)
Definition VersionSwitcher_label (selectedVersion : string) : string :=
  match versions_find (Some selectedVersion) with
  | Some version =>
      if nonempty (label version) then label version else "Select Landing Page"
  | None => "Select Landing Page"
  end.

(** [versions[0].url] *)
Definition versions_0_url : string :=
  match versions with
  | version :: _ => url version
  | [] => ""
  end.

(** The version [LeftNav] selects for a pathname, initially and in its
    effect: [versions.find(...)?.url || versions[0].url]; [usePathname()]
    may be [null]. *)
Definition LeftNav_selectedVersion (pathname : option string) : string :=
  match versions_find pathname with
  | Some version => if nonempty (url version) then url version else versions_0_url
  | None => versions_0_url
  end.

(** Sample inputs for the copy button. *)
Definition hello_parts : list Part :=
  [ text_part [32; 72; 105]%N; other_part "step-start"; text_part [33; 10]%N ].

Definition blank_parts : list Part :=
  [ text_part [32; 9]%N; other_part "reasoning"; text_part [] ].

Definition empty_copy_ui : CopyUI := {| clipboard := None; copy_toasts := [] |}.

(** Props for another assistant message, of another chat. *)
Definition other_assistant_props : Props :=
  {| chatId := "c2"; message := {| id := "m9"; role := assistant; parts := None |};
     vote := None; isLoading := false |}.

(* ===================================================================== *)
(** * Theorems: the message actions                                       *)
(* ===================================================================== *)

Example votesUpdater_replaces :
  votesUpdater "c1" "m1" "u1" true
    (Some [mkVote "c1" "m1" false "u1"; mkVote "c1" "m2" true "u1"])
  = [mkVote "c1" "m2" true "u1"; mkVote "c1" "m1" true "u1"].
Proof. vm_compute. reflexivity. Qed.

Example votesUpdater_unfetched :
  votesUpdater "c1" "m1" "u1" true None = [].
Proof. reflexivity. Qed.

(** ** The updater as a list function *)

Section Updater.
Variables c m u : string.

Local Abbreviation keep := (fun vote : WorkspaceChatVote => message_id vote <> m).

Lemma filter_keep_entry (b : bool) (l : list WorkspaceChatVote) :
  filter keep (l ++ [mkVote c m b u]) = filter keep l.
Proof.
  rewrite filter_app, filter_cons_False, filter_nil, app_nil_r; [done|].
  simpl. intros Hne. by apply Hne.
Qed.

Lemma filter_keep_idemp (l : list WorkspaceChatVote) :
  filter keep (filter keep l) = filter keep l.
Proof.
  induction l as [|v l IH]; [done|].
  destruct (decide (keep v)) as [Hk|Hk].
  - rewrite !filter_cons_True by done. by rewrite IH.
  - by rewrite filter_cons_False.
Qed.

(** A second write for the same message discards the first one's entry:
    whatever the two directions, only the last write shows. *)
Lemma votesUpdater_last_wins (b b' : bool) (l : list WorkspaceChatVote) :
  votesUpdater c m u b' (Some (votesUpdater c m u b (Some l)))
  = votesUpdater c m u b' (Some l).
Proof.
  unfold votesUpdater.
  by rewrite filter_keep_entry, filter_keep_idemp.
Qed.

Lemma voteOf_keep_none (l : list WorkspaceChatVote) :
  voteOf m (filter keep l) = None.
Proof.
  induction l as [|v l IH]; [done|].
  destruct (decide (keep v)) as [Hk|Hk].
  - rewrite filter_cons_True by done. unfold voteOf; simpl.
    rewrite bool_decide_eq_false_2 by done. apply IH.
  - by rewrite filter_cons_False.
Qed.

Lemma voteOf_app_none (l l' : list WorkspaceChatVote) :
  voteOf m l = None -> voteOf m (l ++ l') = voteOf m l'.
Proof.
  unfold voteOf. induction l as [|v l IH]; simpl; [done|].
  destruct (bool_decide (message_id v = m)); [done|]. apply IH.
Qed.

(** After a write the cached vote of the message is the written entry. *)
Lemma voteOf_votesUpdater (b : bool) (l : list WorkspaceChatVote) :
  voteOf m (votesUpdater c m u b (Some l)) = Some (mkVote c m b u).
Proof.
  unfold votesUpdater.
  rewrite voteOf_app_none by apply voteOf_keep_none.
  unfold voteOf; simpl. by rewrite bool_decide_eq_true_2.
Qed.

Lemma filter_same_message_keep (l : list WorkspaceChatVote) :
  filter (fun v => message_id v = m) (filter keep l) = [].
Proof.
  induction l as [|v l IH]; [done|].
  destruct (decide (keep v)) as [Hk|Hk].
  - rewrite filter_cons_True by done.
    by rewrite filter_cons_False.
  - by rewrite filter_cons_False.
Qed.

(** X16: after a write the list holds exactly one entry for the message,
    the written one, however many entries for it the list held before. *)
Lemma votesUpdater_one_entry (b : bool) (l : list WorkspaceChatVote) :
  filter (fun v => message_id v = m) (votesUpdater c m u b (Some l))
  = [mkVote c m b u].
Proof.
  unfold votesUpdater.
  rewrite filter_app, filter_same_message_keep.
  by rewrite filter_cons_True.
Qed.
End Updater.

(** ** The cache write *)

Lemma mutate_lookup key fn (cache : Cache) :
  mutate key fn cache !! key = Some (fn (cache !! key)).
Proof. unfold mutate. apply lookup_insert_eq. Qed.

Lemma mutate_lookup_ne key key' fn (cache : Cache) :
  key <> key' -> mutate key fn cache !! key' = cache !! key'.
Proof. intros Hne. unfold mutate. by apply lookup_insert_ne. Qed.

Lemma mutate_mutate key fn fn' (cache : Cache) :
  mutate key fn' (mutate key fn cache)
  = <[key := fn' (Some (fn (cache !! key)))]> cache.
Proof.
  unfold mutate. rewrite lookup_insert_eq. apply insert_insert_eq.
Qed.

Lemma voteOf_app (m : string) (l l' : list WorkspaceChatVote) :
  voteOf m (l ++ l')
  = match voteOf m l with Some v => Some v | None => voteOf m l' end.
Proof.
  unfold voteOf. induction l as [|v l IH]; simpl; [done|].
  by destruct (bool_decide (message_id v = m)).
Qed.

Lemma voteOf_filter_other (m m' : string) (l : list WorkspaceChatVote) :
  m' <> m ->
  voteOf m' (filter (fun vote => message_id vote <> m) l) = voteOf m' l.
Proof.
  intros Hne. induction l as [|v l IH]; [done|].
  destruct (decide (message_id v = m)) as [Heq|Hk].
  - rewrite filter_cons_False by (by intros Hn; apply Hn).
    rewrite IH. unfold voteOf; simpl.
    rewrite bool_decide_eq_false_2; [done|]. by rewrite Heq.
  - rewrite filter_cons_True by done. unfold voteOf in *; simpl.
    by destruct (bool_decide (message_id v = m')).
Qed.

Lemma filter_other_filter_keep (m m' : string) (l : list WorkspaceChatVote) :
  m' <> m ->
  filter (fun v => message_id v = m') (filter (fun vote => message_id vote <> m) l)
  = filter (fun v => message_id v = m') l.
Proof.
  intros Hne. induction l as [|v l IH]; [done|].
  destruct (decide (message_id v = m)) as [Heq|Hk].
  - rewrite filter_cons_False by (by intros Hn; apply Hn).
    rewrite (filter_cons_False _ v l); [done|]. by rewrite Heq.
  - rewrite filter_cons_True by done.
    destruct (decide (message_id v = m')) as [Heq'|Hne'].
    + rewrite !filter_cons_True by done. by rewrite IH.
    + by rewrite !filter_cons_False.
Qed.

(** C5, as stated, fails on the unfetched cache: there the first write
    stores the empty list and shows no vote, and only the second write of
    the same direction shows it, so twice differs from once. *)
Lemma C5_counterexample :
  voteOf "m1" (votesUpdater "c1" "m1" "u1" true None) = None
  /\ voteOf "m1" (votesUpdater "c1" "m1" "u1" true
                    (Some (votesUpdater "c1" "m1" "u1" true None)))
     = Some (mkVote "c1" "m1" true "u1")
  /\ (let vote c :=
        settle 0 (Fulfilled 200) (onClick up assistant_props reviewer c) in
      swr (vote fresh_client) !! voteKey "c1" = Some []
      /\ swr (vote (vote fresh_client)) !! voteKey "c1"
         = Some [mkVote "c1" "m1" true "u1"])
  /\ ~ (forall (cached : option (list WorkspaceChatVote)) (c m u : string)
               (d : Direction),
          voteOf m (votesUpdater c m u (isUp d)
                      (Some (votesUpdater c m u (isUp d) cached)))
          = voteOf m (votesUpdater c m u (isUp d) cached)).
Proof.
  split; [reflexivity|]. split; [by vm_compute|]. split; [by vm_compute|].
  intros Hclaim. specialize (Hclaim None "c1" "m1" "u1" up).
  vm_compute in Hclaim. discriminate.
Qed.

(** C5, amended: on a fetched cache the write of a vote replaces by key.
    For every vote list [l] the cache holds for the chat and every message
    id [m]: the write lands in the cache under the chat's key and nowhere
    else; it leaves exactly one entry for [m], the written one, and every
    other message's entries and shown vote as they were; writing the same
    direction twice leaves the list, and so the visible vote of [m], as one
    write leaves it; up, down, up shows [is_upvoted = true] again and
    leaves the list as a single up write leaves it. *)
Theorem C5_vote_write_replaces_by_key
    (c m u : string) (l : list WorkspaceChatVote) (d : Direction) (cache : Cache) :
  let write d l := votesUpdater c m u (isUp d) (Some l) in
  let click d := mutate (voteKey c) (votesUpdater c m u (isUp d)) in
  let fetched : Cache := <[voteKey c := l]> cache in
  click d fetched !! voteKey c = Some (write d l)
  /\ (forall key, key <> voteKey c -> click d fetched !! key = cache !! key)
  /\ filter (fun v => message_id v = m) (write d l) = [mkVote c m (isUp d) u]
  /\ (forall m', m' <> m ->
      filter (fun v => message_id v = m') (write d l)
      = filter (fun v => message_id v = m') l
      /\ voteOf m' (write d l) = voteOf m' l)
  /\ write d (write d l) = write d l
  /\ voteOf m (write d (write d l)) = voteOf m (write d l)
  /\ voteOf m (write d l) = Some (mkVote c m (isUp d) u)
  /\ voteOf m (write down (write up l)) = Some (mkVote c m false u)
  /\ voteOf m (write up (write down (write up l))) = Some (mkVote c m true u)
  /\ write up (write down (write up l)) = write up l
  /\ click d (click d fetched) = click d fetched
  /\ click up (click down (click up fetched)) = click up fetched.
Proof.
  intros write click fetched. subst write click fetched. cbv beta.
  split; [by rewrite mutate_lookup, lookup_insert_eq|].
  split; [by intros key Hne; rewrite mutate_lookup_ne, lookup_insert_ne|].
  split.
  { unfold votesUpdater. rewrite filter_app, filter_same_message_keep.
    by rewrite filter_cons_True. }
  split.
  { intros m' Hne. unfold votesUpdater. split.
    - rewrite filter_app, filter_other_filter_keep by done.
      rewrite filter_cons_False; [by rewrite app_nil_r|]. simpl. congruence.
    - rewrite voteOf_app, voteOf_filter_other by done.
      destruct (voteOf m' l); [done|]. unfold voteOf; simpl.
      rewrite bool_decide_eq_false_2; [done|]. congruence. }
  repeat split.
  - apply votesUpdater_last_wins.
  - by rewrite votesUpdater_last_wins.
  - apply voteOf_votesUpdater.
  - apply (voteOf_votesUpdater c m u false).
  - apply (voteOf_votesUpdater c m u true).
  - by rewrite !votesUpdater_last_wins.
  - rewrite mutate_mutate. unfold mutate.
    rewrite lookup_insert_eq, votesUpdater_last_wins. done.
  - rewrite mutate_mutate, mutate_lookup. unfold mutate.
    rewrite insert_insert_eq, lookup_insert_eq.
    by rewrite !votesUpdater_last_wins.
Qed.

Lemma C5_vote_write_replaces_by_key_witness :
  mutate (voteKey "c1") (votesUpdater "c1" "m1" "u1" false)
    (<[voteKey "c1" := [mkVote "c1" "m2" true "u1"; mkVote "c1" "m1" true "u1"]]>
       (∅ : Cache)) !! voteKey "c2"
  = (∅ : Cache) !! voteKey "c2"
  /\ voteOf "m2" (votesUpdater "c1" "m1" "u1" false
                    (Some [mkVote "c1" "m2" true "u1"; mkVote "c1" "m1" true "u1"]))
     = Some (mkVote "c1" "m2" true "u1").
Proof.
  destruct (C5_vote_write_replaces_by_key "c1" "m1" "u1"
              [mkVote "c1" "m2" true "u1"; mkVote "c1" "m1" true "u1"]
              down ∅) as (_ & Hkeys & _ & Hothers & _).
  split.
  - apply (Hkeys (voteKey "c2")). discriminate.
  - apply (proj2 (Hothers "m2" ltac:(discriminate))).
Defined.

(** ** Rendering *)

Lemma PureMessageActions_rendered (p : Props) (controls : Controls) :
  PureMessageActions p = Some controls ->
  isLoading p = false /\ role (message p) <> user
  /\ controls = {| copy_onClick := fun accepts =>
                     onClick_copy accepts (parts (message p));
                   upvote_disabled := upvoteDisabled (vote p);
                   upvote_onClick := onClick_upvote p;
                   downvote_disabled := downvoteDisabled (vote p);
                   downvote_onClick := onClick_downvote p |}.
Proof.
  unfold PureMessageActions.
  destruct (isLoading p); [discriminate|].
  destruct (decide (role (message p) = user)); [discriminate|].
  intros [= <-]. done.
Qed.

(** C8: for every message the component renders, the upvote control is
    disabled exactly when the cached vote has [is_upvoted = true], the
    downvote control exactly when there is a cached vote with [is_upvoted =
    false], and both are enabled without a cached vote; the two flags are
    functions of the [vote] prop alone. *)
Theorem C8_disabled_rule (p : Props) (controls : Controls) :
  PureMessageActions p = Some controls ->
  (upvote_disabled controls = true
     <-> exists v, vote p = Some v /\ is_upvoted v = true)
  /\ (downvote_disabled controls = true
     <-> exists v, vote p = Some v /\ is_upvoted v = false)
  /\ (vote p = None ->
      upvote_disabled controls = false /\ downvote_disabled controls = false)
  /\ (forall p' controls',
        PureMessageActions p' = Some controls' -> vote p' = vote p ->
        upvote_disabled controls' = upvote_disabled controls
        /\ downvote_disabled controls' = downvote_disabled controls).
Proof.
  intros Hr. apply PureMessageActions_rendered in Hr as (_ & _ & ->). simpl.
  split; [|split; [|split]].
  - split.
    + destruct (vote p) as [v|]; simpl; [eauto | discriminate].
    + intros (v & -> & Hv). exact Hv.
  - split.
    + destruct (vote p) as [v|]; simpl; [|discriminate].
      intros Hv. exists v. split; [done|]. by destruct (is_upvoted v).
    + intros (v & -> & Hv). simpl. by rewrite Hv.
  - by intros ->.
  - intros p' controls' Hr' Hv.
    apply PureMessageActions_rendered in Hr' as (_ & _ & ->). simpl.
    by rewrite Hv.
Qed.

Lemma C8_disabled_rule_witness :
  exists controls,
    PureMessageActions upvoted_props = Some controls
    /\ upvote_disabled controls = true
    /\ downvote_disabled controls = false
    /\ (exists v, vote upvoted_props = Some v /\ is_upvoted v = true).
Proof.
  eexists. split; [reflexivity|]. split; [reflexivity|]. split; [reflexivity|].
  eapply (proj1 (C8_disabled_rule upvoted_props _ eq_refl)). reflexivity.
Defined.

(** ** Clicks *)

Lemma onClick_requests d p u c :
  requests (onClick d p u c) = requests c ++ [vote_body d p].
Proof. by destruct d. Qed.

Lemma onClick_swr d p u c : swr (onClick d p u c) = swr c.
Proof. by destruct d. Qed.

Lemma onClick_toasts d p u c :
  exists msg, toasts (onClick d p u c) = toasts c ++ [toast_loading msg].
Proof. destruct d; eexists; reflexivity. Qed.

(** The promise of a click is the last pending one, and its callbacks are
    the cache write of the clicked direction and the failure notice. *)
Lemma onClick_pending d p u c :
  exists data,
    pending (onClick d p u c) = pending c ++ [data]
    /\ (forall cache,
          fst (success data cache)
          = mutate (voteKey (chatId p))
              (votesUpdater (chatId p) (id (message p)) (uid u) (isUp d)) cache)
    /\ toast_error (error data) = failure_notice d.
Proof. destruct d; eexists; repeat split. Qed.

Lemma lookup_snoc {A} (l : list A) (x : A) : (l ++ [x]) !! length l = Some x.
Proof. by rewrite list_lookup_middle. Qed.

(** What settling the promise of a click does to the cache, to the toasts
    and to the requests, whatever happened on the client in between, as
    long as the promise is still pending at index [i]. *)
Lemma settle_pending i r c data :
  pending c !! i = Some data ->
  requests (settle i r c) = requests c
  /\ (mutation_failed r = true ->
      swr (settle i r c) = swr c
      /\ toasts (settle i r c) = toasts c ++ [toast_error (error data)])
  /\ (mutation_failed r = false ->
      swr (settle i r c) = fst (success data (swr c))
      /\ toasts (settle i r c)
         = toasts c ++ [toast_success (snd (success data (swr c)))]).
Proof.
  intros Hp. unfold settle. rewrite Hp.
  destruct r as [st|]; simpl.
  - destruct (response_ok st); simpl.
    + destruct (success data (swr c)) as [cache msg]; simpl.
      repeat split; try done.
    + repeat split; try done.
  - repeat split; try done.
Qed.

Lemma press_issued d p u c :
  requests (press d p u c) <> requests c ->
  press d p u c = onClick d p u c
  /\ isLoading p = false /\ role (message p) <> user.
Proof.
  unfold press. destruct (PureMessageActions p) as [controls|] eqn:Hr; [|done].
  apply PureMessageActions_rendered in Hr as (Hl & Hu & ->). simpl.
  destruct d; simpl.
  - by destruct (upvoteDisabled (vote p)).
  - by destruct (downvoteDisabled (vote p)).
Qed.

(** C10, as stated, fails: the component renders the vote controls for a
    message of role [system], so a vote action can target a message that
    is not an assistant message. *)
Lemma C10_counterexample :
  (exists controls,
     PureMessageActions system_props = Some controls
     /\ upvote_disabled controls = false
     /\ downvote_disabled controls = false)
  /\ requests (press up system_props reviewer fresh_client)
     = [ {| body_chatId := Some "c1"; body_messageId := Some "m0";
            body_type := Some "up" |} ]
  /\ ~ (forall d p u c,
          requests (press d p u c) <> requests c ->
          role (message p) = assistant).
Proof.
  split; [eexists; repeat split|]. split; [reflexivity|].
  intros Hclaim.
  specialize (Hclaim up system_props reviewer fresh_client).
  assert (Hneq : requests (press up system_props reviewer fresh_client)
                 <> requests fresh_client) by (vm_compute; discriminate).
  apply Hclaim in Hneq. vm_compute in Hneq. discriminate.
Qed.

(** C10, amended: [PureMessageActions] returns [null] whenever [isLoading]
    is true or the message's role is [user]; consequently every vote action
    issued through the component targets the [messageId] of a message that
    is not a user message (assistant or system), rendered with [isLoading]
    false. *)
Theorem C10_render_guard (p : Props) :
  (isLoading p = true \/ role (message p) = user -> PureMessageActions p = None)
  /\ (forall d u c,
        requests (press d p u c) <> requests c ->
        isLoading p = false /\ role (message p) <> user
        /\ requests (press d p u c)
           = requests c ++ [ {| body_chatId := Some (chatId p);
                                body_messageId := Some (id (message p));
                                body_type := Some (type_of d) |} ]).
Proof.
  split.
  - unfold PureMessageActions. intros [-> | ->]; [done|].
    by destruct (isLoading p).
  - intros d u c Hneq.
    destruct (press_issued d p u c Hneq) as (-> & Hl & Hu).
    by rewrite onClick_requests.
Qed.

Lemma C10_render_guard_witness :
  PureMessageActions loading_props = None
  /\ role (message assistant_props) <> user
  /\ requests (press down assistant_props reviewer fresh_client)
     = [ {| body_chatId := Some "c1"; body_messageId := Some "m1";
            body_type := Some "down" |} ].
Proof.
  split.
  - apply (C10_render_guard loading_props). left. reflexivity.
  - apply (proj2 (C10_render_guard assistant_props) down reviewer fresh_client).
    vm_compute. discriminate.
Defined.

(** Settling the promise of a click right after the click. *)
Lemma settle_onClick d p u c r :
  let c1 := onClick d p u c in
  let c2 := settle (length (pending c)) r c1 in
  requests c2 = requests c ++ [vote_body d p]
  /\ (mutation_failed r = true ->
      swr c2 = swr c /\ toasts c2 = toasts c1 ++ [failure_notice d])
  /\ (mutation_failed r = false ->
      swr c2 = mutate (voteKey (chatId p))
                 (votesUpdater (chatId p) (id (message p)) (uid u) (isUp d))
                 (swr c)).
Proof.
  intros c1 c2. subst c1 c2.
  destruct (onClick_pending d p u c) as (data & Hp & Hs & He).
  assert (Hi : pending (onClick d p u c) !! length (pending c) = Some data)
    by (rewrite Hp; apply lookup_snoc).
  destruct (settle_pending _ r _ _ Hi) as (Hreq & Hfail & Hok).
  rewrite Hreq, onClick_requests. split; [done|]. split.
  - intros Hr. destruct (Hfail Hr) as [-> ->].
    by rewrite onClick_swr, He.
  - intros Hr. destruct (Hok Hr) as [-> _].
    by rewrite Hs, onClick_swr.
Qed.

(** Up, down, up on one message, each request answered 200: three requests
    left the client and the cache shows the single up entry. *)
Example up_down_up_on_client :
  let vote d c := settle 0 (Fulfilled 200) (onClick d assistant_props reviewer c) in
  let c3 := vote up (vote down (vote up fetched_client)) in
  swr c3 !! voteKey "c1" = Some [mkVote "c1" "m1" true "u1"]
  /\ length (requests c3) = 3
  /\ pending c3 = [].
Proof. by vm_compute. Qed.

(** C1, as stated, fails: with the vote list of the chat fetched and empty,
    the click leaves the cache as it was; the entry appears only once the
    request has succeeded, and never when it is rejected. *)
Lemma C1_counterexample :
  let c1 := onClick up assistant_props reviewer fetched_client in
  swr c1 !! voteKey "c1" = Some []
  /\ swr (settle 0 Rejected c1) !! voteKey "c1" = Some []
  /\ swr (settle 0 (Fulfilled 200) c1) !! voteKey "c1"
     = Some [mkVote "c1" "m1" true "u1"]
  /\ ~ (forall d p u c,
          swr (onClick d p u c) !! voteKey (chatId p)
          = Some (votesUpdater (chatId p) (id (message p)) (uid u) (isUp d)
                    (Some (default [] (swr c !! voteKey (chatId p)))))).
Proof.
  split; [by vm_compute|]. split; [by vm_compute|]. split; [by vm_compute|].
  intros Hclaim.
  specialize (Hclaim up assistant_props reviewer fetched_client).
  vm_compute in Hclaim. discriminate.
Qed.

(** C1, amended: a vote action sends the PATCH request at once and leaves
    the cached vote list of [/api/vote?chatId=<chatId>] as it is until the
    request settles; the list is written, by the replace-by-key update,
    only when the request succeeds, and a failed request leaves it
    unwritten. *)
Theorem C1_cache_written_on_success (d : Direction) (p : Props) (u : User)
    (c : Client) (r : FetchResult) :
  let c1 := onClick d p u c in
  let c2 := settle (length (pending c)) r c1 in
  swr c1 = swr c
  /\ requests c1 = requests c ++ [vote_body d p]
  /\ swr c2 = if mutation_failed r then swr c
              else mutate (voteKey (chatId p))
                     (votesUpdater (chatId p) (id (message p)) (uid u) (isUp d))
                     (swr c).
Proof.
  intros c1 c2. subst c1 c2.
  split; [apply onClick_swr|]. split; [apply onClick_requests|].
  destruct (settle_onClick d p u c r) as (_ & Hfail & Hok).
  destruct (mutation_failed r); [by apply Hfail | by apply Hok].
Qed.

(** C2, as stated, fails: with nothing fetched for the chat, a successful
    upvote stores the empty list, not a list with the new entry. *)
Lemma C2_counterexample :
  swr fresh_client !! voteKey "c1" = None
  /\ swr (settle 0 (Fulfilled 200)
            (onClick up assistant_props reviewer fresh_client)) !! voteKey "c1"
     = Some []
  /\ ~ (forall d p u c,
          swr c !! voteKey (chatId p) = None ->
          swr (settle (length (pending c)) (Fulfilled 200) (onClick d p u c))
            !! voteKey (chatId p)
          = Some [entry p u d]).
Proof.
  split; [by vm_compute|]. split; [by vm_compute|].
  intros Hclaim.
  specialize (Hclaim up assistant_props reviewer fresh_client eq_refl).
  vm_compute in Hclaim. discriminate.
Qed.

(** C2, amended: for a vote action that succeeds on a chat whose cached
    vote list is unfetched (undefined), the handler stores the empty list
    and inserts no entry.  When a list is cached, the entries of the
    message are removed from it and the entry [{chatId, messageId,
    isUpvoted = (direction == up)}] is appended; from a cached empty list
    the result is exactly that one entry. *)
Theorem C2_unfetched_cache_stores_empty_list (d : Direction) (p : Props)
    (u : User) (c : Client) (r : FetchResult) :
  mutation_failed r = false ->
  let key := voteKey (chatId p) in
  let c2 := settle (length (pending c)) r (onClick d p u c) in
  (swr c !! key = None -> swr c2 !! key = Some [])
  /\ (forall l, swr c !! key = Some l ->
        swr c2 !! key
        = Some (filter (fun v => message_id v <> id (message p)) l
                ++ [entry p u d]))
  /\ (swr c !! key = Some [] -> swr c2 !! key = Some [entry p u d]).
Proof.
  intros Hr key c2. subst key c2.
  destruct (settle_onClick d p u c r) as (_ & _ & Hok).
  rewrite (Hok Hr), mutate_lookup.
  split; [by intros ->|]. split; [by intros l ->|]. by intros ->.
Qed.

Lemma C2_unfetched_cache_stores_empty_list_witness :
  swr (settle 0 (Fulfilled 200)
         (onClick down assistant_props reviewer fresh_client)) !! voteKey "c1"
  = Some []
  /\ swr (settle 0 (Fulfilled 200)
            (onClick down assistant_props reviewer fetched_client)) !! voteKey "c1"
     = Some [mkVote "c1" "m1" false "u1"].
Proof.
  split.
  - apply (C2_unfetched_cache_stores_empty_list down assistant_props reviewer
             fresh_client (Fulfilled 200)); reflexivity.
  - apply (C2_unfetched_cache_stores_empty_list down assistant_props reviewer
             fetched_client (Fulfilled 200)); reflexivity.
Defined.

(** C6: for every vote action whose request fails (no response, or a
    response that is not ok) the failure notice of the clicked button is
    raised and the failure path leaves the cached vote lists as they were:
    no rollback, no other write.  This holds when the promise settles right
    after the click and also from any later client state in which it is
    still pending. *)
Theorem C6_failure_notice_and_cache_untouched (d : Direction) (p : Props)
    (u : User) (c : Client) (r : FetchResult) :
  mutation_failed r = true ->
  let c1 := onClick d p u c in
  let c2 := settle (length (pending c)) r c1 in
  swr c2 = swr c
  /\ toasts c2 = toasts c1 ++ [failure_notice d]
  /\ exists data,
       pending c1 = pending c ++ [data]
       /\ forall c' i,
            pending c' !! i = Some data ->
            swr (settle i r c') = swr c'
            /\ toasts (settle i r c') = toasts c' ++ [failure_notice d].
Proof.
  intros Hr c1 c2. subst c1 c2.
  destruct (settle_onClick d p u c r) as (_ & Hfail & _).
  destruct (Hfail Hr) as [Hswr Htoasts].
  split; [done|]. split; [done|].
  destruct (onClick_pending d p u c) as (data & Hp & _ & He).
  exists data. split; [done|].
  intros c' i Hi.
  destruct (settle_pending i r c' data Hi) as (_ & Hfail' & _).
  rewrite <- He. by apply Hfail'.
Qed.

Lemma C6_failure_notice_and_cache_untouched_witness :
  swr (settle 0 Rejected (onClick up assistant_props reviewer fetched_client))
  = swr fetched_client
  /\ toasts (settle 0 Rejected (onClick up assistant_props reviewer fetched_client))
     = [toast_loading "Upvoting Response...";
        toast_error "Failed to upvote response."].
Proof.
  destruct (C6_failure_notice_and_cache_untouched up assistant_props reviewer
              fetched_client Rejected eq_refl) as (Hswr & Htoasts & _).
  split; [exact Hswr | exact Htoasts].
Defined.

(* ===================================================================== *)
(** * Theorems: the route handlers                                        *)
(* ===================================================================== *)

Lemma truthy_Some (x : string) : x <> "" -> truthy (Some x) = true.
Proof. intros Hx. simpl. by rewrite bool_decide_eq_false_2. Qed.

Lemma truthy_true (v : option string) :
  truthy v = true -> exists x, v = Some x /\ x <> "".
Proof.
  destruct v as [x|]; simpl; [|discriminate].
  intros Hx. exists x. split; [done|].
  intros ->. by rewrite bool_decide_eq_true_2 in Hx.
Qed.

(** ** The handlers against any data layer *)

Section HandlerFacts.
Context {W : Type} `{DataLayer W}.

Lemma PATCH_unreadable (req : Request) (w : W) :
  request_json req = json_throws -> PATCH req w = (threw, w).
Proof.
  intros Hj. unfold PATCH, await, await_request_json. by rewrite Hj.
Qed.

(** With a body that could be read, the handler goes on to its checks. *)
Lemma PATCH_readable (req : Request) (fields : VoteBody) (w : W) :
  request_json req = json_object fields ->
  PATCH req w
  = (if negb (truthy (body_chatId fields)) || negb (truthy (body_messageId fields))
        || negb (truthy (body_type fields))
     then ret {| body := text "messageId and type are required"; status := 400 |}
     else
       do_await serverGetLoggedInUser in
       let_await chat := getChatById (str (body_chatId fields)) in
       match chat with
       | None => ret {| body := text "Chat not found"; status := 404 |}
       | Some _ =>
           do_await voteMessage (str (body_chatId fields))
                      (str (body_messageId fields)) (str (body_type fields)) in
           ret {| body := text "Message voted"; status := 200 |}
       end) w.
Proof.
  intros Hj. unfold PATCH, await at 1, await_request_json. by rewrite Hj.
Qed.

Lemma PATCH_missing (req : Request) (fields : VoteBody) (w : W) :
  request_json req = json_object fields ->
  truthy (body_chatId fields) = false
  \/ truthy (body_messageId fields) = false
  \/ truthy (body_type fields) = false ->
  PATCH req w
  = (resolved {| body := text "messageId and type are required";
                 status := 400 |}, w).
Proof.
  intros Hj. rewrite (PATCH_readable req fields w Hj).
  intros [-> | [-> | ->]]; simpl.
  - done.
  - by rewrite orb_true_r.
  - by rewrite orb_true_r.
Qed.

Lemma PATCH_not_found q (c m t : string) (u : User) (w w1 w2 : W) :
  c <> "" -> m <> "" -> t <> "" ->
  serverGetLoggedInUser w = (resolved u, w1) ->
  getChatById c w1 = (resolved None, w2) ->
  PATCH {| query := q;
           request_json := json_object (mkVoteBody (Some c) (Some m) (Some t)) |} w
  = (resolved {| body := text "Chat not found"; status := 404 |}, w2).
Proof.
  intros Hc Hm Ht Hauth Hchat. erewrite PATCH_readable by reflexivity.
  cbn [body_chatId body_messageId body_type str].
  rewrite !truthy_Some by done. cbn [negb orb].
  unfold await. rewrite Hauth; cbv beta iota. by rewrite Hchat.
Qed.

Lemma PATCH_voted q (c m t : string) (u : User) (chat : ChatRow)
    (w w1 w2 w3 : W) :
  c <> "" -> m <> "" -> t <> "" ->
  serverGetLoggedInUser w = (resolved u, w1) ->
  getChatById c w1 = (resolved (Some chat), w2) ->
  voteMessage c m t w2 = (resolved tt, w3) ->
  PATCH {| query := q;
           request_json := json_object (mkVoteBody (Some c) (Some m) (Some t)) |} w
  = (resolved {| body := text "Message voted"; status := 200 |}, w3).
Proof.
  intros Hc Hm Ht Hauth Hchat Hvote. erewrite PATCH_readable by reflexivity.
  cbn [body_chatId body_messageId body_type str].
  rewrite !truthy_Some by done. cbn [negb orb].
  unfold await. rewrite Hauth; cbv beta iota. rewrite Hchat; cbv beta iota.
  by rewrite Hvote.
Qed.

Lemma GET_missing (req : Request) (w : W) :
  truthy (searchParams_get "chatId" (query req)) = false ->
  GET req w
  = (resolved {| body := text "chatId is required"; status := 400 |}, w).
Proof. unfold GET. by intros ->. Qed.

Lemma GET_not_found (req : Request) (c : string) (u : User) (w w1 w2 : W) :
  searchParams_get "chatId" (query req) = Some c -> c <> "" ->
  serverGetLoggedInUser w = (resolved u, w1) ->
  getChatById c w1 = (resolved None, w2) ->
  GET req w = (resolved {| body := text "Chat not found"; status := 404 |}, w2).
Proof.
  intros Hq Hc Hauth Hchat. unfold GET. rewrite Hq.
  rewrite truthy_Some by done. cbn [negb str].
  unfold await. rewrite Hauth; cbv beta iota. by rewrite Hchat.
Qed.

Lemma GET_found (req : Request) (c : string) (u : User) (chat : ChatRow)
    (votes : list WorkspaceChatVote) (w w1 w2 w3 : W) :
  searchParams_get "chatId" (query req) = Some c -> c <> "" ->
  serverGetLoggedInUser w = (resolved u, w1) ->
  getChatById c w1 = (resolved (Some chat), w2) ->
  getVotesByChatId c w2 = (resolved votes, w3) ->
  GET req w = (resolved {| body := json votes; status := 200 |}, w3).
Proof.
  intros Hq Hc Hauth Hchat Hvotes. unfold GET. rewrite Hq.
  rewrite truthy_Some by done. cbn [negb str].
  unfold await. rewrite Hauth; cbv beta iota. rewrite Hchat; cbv beta iota.
  by rewrite Hvotes.
Qed.
End HandlerFacts.

(** C9: a PATCH /vote body whose [chatId], [messageId] and [type] are
    non-empty strings passes the 400 check whatever the value of [type];
    when the caller and the chat resolve, [type] is handed as it is to
    [voteMessage] and, the upsert done, the handler answers 200.  Nothing
    restricts [type] to ["up"] or ["down"]. *)
Theorem C9_type_not_validated {W : Type} `{DataLayer W}
    (q : list (string * string)) (c m t : string) (u : User) (chat : ChatRow)
    (w w1 w2 w3 : W) :
  c <> "" -> m <> "" -> t <> "" ->
  serverGetLoggedInUser w = (resolved u, w1) ->
  getChatById c w1 = (resolved (Some chat), w2) ->
  voteMessage c m t w2 = (resolved tt, w3) ->
  PATCH {| query := q;
           request_json := json_object (mkVoteBody (Some c) (Some m) (Some t)) |} w
  = (resolved {| body := text "Message voted"; status := 200 |}, w3).
Proof. apply PATCH_voted. Qed.

Lemma C9_type_not_validated_witness :
  PATCH (patch_request "c1" "m1" "sideways") sample_world
  = (resolved {| body := text "Message voted"; status := 200 |},
     {| w_session := Some reviewer;
        w_chats := [ {| chat_ident := "c1"; chat_owner := "u1" |} ];
        w_votes := [ mkVote "c1" "m1" false "u1" ] |}).
Proof.
  apply (C9_type_not_validated [] "c1" "m1" "sideways" reviewer
           {| chat_ident := "c1"; chat_owner := "u1" |}
           sample_world sample_world sample_world);
    first [discriminate | reflexivity].
Defined.

(** ** The upsert by natural key *)

Section Upsert.
Variable row : WorkspaceChatVote.

Lemma same_key_true v : same_key row v = true <-> vote_key v = vote_key row.
Proof. unfold same_key. apply bool_decide_eq_true. Qed.

Lemma same_key_false v : same_key row v = false <-> vote_key v <> vote_key row.
Proof. unfold same_key. apply bool_decide_eq_false. Qed.

Lemma overwrite_keeps_key v : vote_key (overwrite row v) = vote_key v.
Proof.
  unfold overwrite. destruct (same_key row v) eqn:E; [|done].
  symmetry. by apply same_key_true.
Qed.

Lemma overwrite_keeps_keys (rows : list WorkspaceChatVote) : vote_key <$> (overwrite row <$> rows) = vote_key <$> rows.
Proof.
  induction rows as [|v rows IH]; [done|]. csimpl.
  by rewrite overwrite_keeps_key, IH.
Qed.

Lemma existsb_same_key_false (rows : list WorkspaceChatVote) :
  existsb (same_key row) rows = false <-> vote_key row ∉ vote_key <$> rows.
Proof.
  induction rows as [|v rows IH]; csimpl.
  - split; [intros _; apply not_elem_of_nil | done].
  - rewrite orb_false_iff, not_elem_of_cons, IH, same_key_false.
    split; intros [Hne Hni]; split; try done; by intros Heq; apply Hne.
Qed.

Lemma filter_key_absent (rows : list WorkspaceChatVote) :
  vote_key row ∉ vote_key <$> rows ->
  filter (fun v => vote_key v = vote_key row) rows = [].
Proof.
  induction rows as [|v rows IH]; [done|]. csimpl.
  rewrite not_elem_of_cons. intros [Hne Hni].
  rewrite filter_cons_False by (by intros Heq; apply Hne).
  by apply IH.
Qed.

Lemma overwrite_key_absent (rows : list WorkspaceChatVote) :
  vote_key row ∉ vote_key <$> rows -> overwrite row <$> rows = rows.
Proof.
  induction rows as [|v rows IH]; [done|]. csimpl.
  rewrite not_elem_of_cons. intros [Hne Hni].
  rewrite IH by done. f_equal. unfold overwrite.
  destruct (same_key row v) eqn:E; [|done].
  apply same_key_true in E. by destruct Hne.
Qed.

Lemma filter_overwrite_present (rows : list WorkspaceChatVote) :
  unique_keys rows ->
  existsb (same_key row) rows = true ->
  filter (fun v => vote_key v = vote_key row) (overwrite row <$> rows) = [row].
Proof.
  unfold unique_keys.
  induction rows as [|v rows IH]; csimpl; [discriminate|].
  rewrite NoDup_cons. intros [Hni Hnd] Hex.
  unfold overwrite at 1. destruct (same_key row v) eqn:E.
  - apply same_key_true in E. rewrite E in Hni.
    rewrite filter_cons_True by done.
    by rewrite overwrite_key_absent, filter_key_absent.
  - simpl in Hex. apply same_key_false in E.
    rewrite filter_cons_False by done. by apply IH.
Qed.

(** The upsert keeps the natural key unique. *)
Lemma upsertVote_unique (rows : list WorkspaceChatVote) :
  unique_keys rows -> unique_keys (upsertVote row rows).
Proof.
  unfold unique_keys, upsertVote. intros Hnd.
  destruct (existsb (same_key row) rows) eqn:Hex.
  - by rewrite overwrite_keeps_keys.
  - apply existsb_same_key_false in Hex.
    rewrite fmap_app. apply NoDup_app. split; [done|]. split.
    + intros k Hk. csimpl. rewrite list_elem_of_singleton. by intros ->.
    + csimpl. apply NoDup_singleton.
Qed.

(** After the upsert exactly one row has the key of [row], and it is
    [row]. *)
Lemma upsertVote_one_row (rows : list WorkspaceChatVote) :
  unique_keys rows ->
  filter (fun v => vote_key v = vote_key row) (upsertVote row rows) = [row].
Proof.
  intros Hnd. unfold upsertVote.
  destruct (existsb (same_key row) rows) eqn:Hex.
  - by apply filter_overwrite_present.
  - apply existsb_same_key_false in Hex.
    rewrite filter_app, filter_key_absent by done.
    by rewrite filter_cons_True.
Qed.

(** A repeat vote overwrites the row where it is: every position keeps
    its row, except that a row with the key of [row] becomes [row]; the
    number of rows does not change. *)
Lemma upsertVote_in_place (rows : list WorkspaceChatVote) i v :
  rows !! i = Some v ->
  upsertVote row rows !! i = Some (if same_key row v then row else v)
  /\ (same_key row v = true -> length (upsertVote row rows) = length rows).
Proof.
  intros Hi. unfold upsertVote.
  destruct (existsb (same_key row) rows) eqn:Hex.
  - rewrite list_lookup_fmap, Hi, length_fmap. done.
  - rewrite lookup_app_l by (by eapply lookup_lt_Some).
    apply existsb_same_key_false in Hex.
    assert (Hv : same_key row v = false).
    { apply same_key_false. intros Heq. apply Hex. rewrite <- Heq.
      apply list_elem_of_fmap_2. by eapply list_elem_of_lookup_2. }
    rewrite Hv. split; [done | discriminate].
Qed.

(** A first vote adds one row at the end. *)
Lemma upsertVote_first (rows : list WorkspaceChatVote) :
  vote_key row ∉ vote_key <$> rows -> upsertVote row rows = rows ++ [row].
Proof.
  intros Hni. apply existsb_same_key_false in Hni.
  unfold upsertVote. by rewrite Hni.
Qed.
End Upsert.

(** ** The handlers over the modelled persistence *)

Lemma model_auth (w : World) (u : User) :
  w_session w = Some u -> serverGetLoggedInUser w = (resolved u, w).
Proof. intros Hs. simpl. unfold model_serverGetLoggedInUser. by rewrite Hs. Qed.

Lemma model_chat (w : World) (c : string) :
  snd (getChatById c w) = w.
Proof. simpl. unfold model_getChatById. by destruct (w_session w). Qed.

Lemma model_chat_resolved (w : World) (c : string) (u : User) :
  w_session w = Some u -> exists chat, getChatById c w = (resolved chat, w).
Proof.
  intros Hs. simpl. unfold model_getChatById. rewrite Hs. by eexists.
Qed.

Lemma model_chat_eq (w : World) (c : string) (u : User) (o : option ChatRow) :
  w_session w = Some u ->
  fst (getChatById c w) = resolved o -> getChatById c w = (resolved o, w).
Proof.
  intros Hs Ho. destruct (model_chat_resolved w c u Hs) as [chat Hc].
  rewrite Hc in Ho |- *. simpl in Ho. by injection Ho as ->.
Qed.

(** C3, as stated, fails: a PATCH request whose body is empty, not JSON
    or [null] has none of the three fields, and the handler throws while
    reading it instead of answering 400; and for a caller that does not
    resolve, a request for a chat that does not resolve makes the handler
    throw instead of answering 404. *)
Lemma C3_counterexample :
  PATCH unreadable_request sample_world = (threw, sample_world)
  /\ PATCH (patch_request "c9" "m1" "up") anonymous_world
     = (threw, anonymous_world)
  /\ ~ (forall (req : Request) (w : World),
          match request_json req with
          | json_throws => True
          | json_object fields =>
              truthy (body_chatId fields) = false
              \/ truthy (body_messageId fields) = false
              \/ truthy (body_type fields) = false
          end ->
          PATCH req w
          = (resolved {| body := text "messageId and type are required";
                         status := 400 |}, w)).
Proof.
  split; [reflexivity|]. split; [reflexivity|].
  intros Hclaim. specialize (Hclaim unreadable_request sample_world I).
  discriminate Hclaim.
Qed.

(** C3, amended: PATCH /vote with a body that can be read (JSON, and not
    [null]).  A body in which [chatId], [messageId] or [type] is missing
    (absent, or empty, which the check treats alike) is answered 400;
    otherwise, for a caller that resolves, a chat that does not resolve is
    answered 404; otherwise the vote is upserted by its natural key and the
    answer is 200 with the plain body [Message voted].  The upsert keeps at
    most one row per [(chatId, messageId)]: afterwards exactly one row has
    that key, the new one, and a repeat vote overwrites the earlier row
    where it stands.  A body that cannot be read makes the handler throw
    before the check, and so does, after the check, a caller that does not
    resolve. *)
Theorem C3_PATCH_vote (req : Request) (w : World) :
  (request_json req = json_throws -> PATCH req w = (threw, w))
  /\ (forall b, request_json req = json_object b ->
      (truthy (body_chatId b) = false \/ truthy (body_messageId b) = false
         \/ truthy (body_type b) = false ->
       PATCH req w
       = (resolved {| body := text "messageId and type are required";
                      status := 400 |}, w))
      /\ (forall c m t,
            b = mkVoteBody (Some c) (Some m) (Some t) ->
            c <> "" -> m <> "" -> t <> "" ->
            (w_session w = None -> PATCH req w = (threw, w))
            /\ (forall u, w_session w = Some u ->
                (fst (getChatById c w) = resolved None ->
                 PATCH req w
                 = (resolved {| body := text "Chat not found"; status := 404 |}, w))
                /\ (forall chat, fst (getChatById c w) = resolved (Some chat) ->
                    let row := mkVote c m (bool_decide (t = "up")) (uid u) in
                    let votes' := upsertVote row (w_votes w) in
                    PATCH req w
                    = (resolved {| body := text "Message voted"; status := 200 |},
                       {| w_session := w_session w; w_chats := w_chats w;
                          w_votes := votes' |})
                    /\ (unique_keys (w_votes w) ->
                        unique_keys votes'
                        /\ filter (fun v => vote_key v = (c, m)) votes' = [row])
                    /\ (forall i v,
                          w_votes w !! i = Some v -> vote_key v = (c, m) ->
                          votes' !! i = Some row
                          /\ length votes' = length (w_votes w)))))).
Proof.
  split; [apply PATCH_unreadable|].
  intros b Hj. split; [by apply PATCH_missing|].
  intros c m t Hb Hc Hm Ht.
  destruct req as [q j]. simpl in Hj. subst j b. split.
  - intros Hs. erewrite PATCH_readable by reflexivity.
    cbn [body_chatId body_messageId body_type str].
    rewrite !truthy_Some by done. cbn [negb orb].
    unfold await. simpl. unfold model_serverGetLoggedInUser. by rewrite Hs.
  - intros u Hs. pose proof (model_auth w u Hs) as Hauth. split.
    + intros Hnone. apply (PATCH_not_found q c m t u w w w); try done.
      by apply (model_chat_eq w c u).
    + intros chat Hsome row votes'. split; [|split].
      * apply (PATCH_voted q c m t u chat w w w); try done.
        -- by apply (model_chat_eq w c u).
        -- simpl. unfold model_voteMessage. by rewrite Hs.
      * intros Hnd. split; [by apply upsertVote_unique|].
        by apply (upsertVote_one_row row).
      * intros i v Hi Hk.
        destruct (upsertVote_in_place row (w_votes w) i v Hi) as [Hl Hlen].
        assert (Hsame : same_key row v = true) by (by apply same_key_true).
        rewrite Hsame in Hl. split; [done | by apply Hlen].
Qed.

Lemma C3_PATCH_vote_witness :
  PATCH unreadable_request sample_world = (threw, sample_world)
  /\ PATCH {| query := [];
              request_json := json_object (mkVoteBody (Some "c1") None (Some "up")) |}
       sample_world
     = (resolved {| body := text "messageId and type are required";
                    status := 400 |}, sample_world)
  /\ PATCH (patch_request "c9" "m1" "up") sample_world
     = (resolved {| body := text "Chat not found"; status := 404 |}, sample_world)
  /\ PATCH (patch_request "c1" "m1" "up") sample_world
     = (resolved {| body := text "Message voted"; status := 200 |},
        {| w_session := Some reviewer;
           w_chats := [ {| chat_ident := "c1"; chat_owner := "u1" |} ];
           w_votes := [ mkVote "c1" "m1" true "u1" ] |}).
Proof.
  split; [|split; [|split]].
  - apply (proj1 (C3_PATCH_vote unreadable_request sample_world)). reflexivity.
  - apply (proj1 (proj2 (C3_PATCH_vote
                           {| query := [];
                              request_json :=
                                json_object (mkVoteBody (Some "c1") None (Some "up")) |}
                           sample_world) _ eq_refl)).
    right. left. reflexivity.
  - destruct (proj2 (proj2 (C3_PATCH_vote (patch_request "c9" "m1" "up")
                              sample_world) _ eq_refl)
                "c9" "m1" "up" eq_refl
                ltac:(discriminate) ltac:(discriminate) ltac:(discriminate))
      as [_ Hauth].
    apply (proj1 (Hauth reviewer eq_refl)). reflexivity.
  - destruct (proj2 (proj2 (C3_PATCH_vote (patch_request "c1" "m1" "up")
                              sample_world) _ eq_refl)
                "c1" "m1" "up" eq_refl
                ltac:(discriminate) ltac:(discriminate) ltac:(discriminate))
      as [_ Hauth].
    destruct (proj2 (Hauth reviewer eq_refl)
                {| chat_ident := "c1"; chat_owner := "u1" |} eq_refl)
      as [Hpatch _].
    exact Hpatch.
Defined.

(** The scenario of the spec: a first up vote makes one row, a down vote
    on the same message overwrites it. *)
Example PATCH_up_then_down :
  let w1 := snd (PATCH (patch_request "c1" "m1" "up") sample_world) in
  let w2 := snd (PATCH (patch_request "c1" "m1" "down") w1) in
  w_votes w1 = [mkVote "c1" "m1" true "u1"]
  /\ w_votes w2 = [mkVote "c1" "m1" false "u1"].
Proof. split; reflexivity. Qed.

Lemma filter_chat_none (rows : list WorkspaceChatVote) (c : string) :
  (forall v, v ∈ rows -> chat_id v <> c) ->
  filter (fun v => chat_id v = c) rows = [].
Proof.
  induction rows as [|v rows IH]; [done|]. intros Hno.
  rewrite filter_cons_False by (apply Hno; left).
  apply IH. intros v' Hv'. apply Hno. by right.
Qed.

(** C4: GET /vote for an authenticated caller.  Without a [chatId] query
    parameter (absent, or empty, which the check treats alike) the answer
    is 400; with a chat that does not resolve for the
    caller it is 404; otherwise it is 200 with the vote rows of that chat,
    the empty list when the chat has no vote.  The handler writes
    nothing. *)
Theorem C4_GET_votes (req : Request) (w : World) :
  let chatId := searchParams_get "chatId" (query req) in
  (truthy chatId = false ->
   GET req w = (resolved {| body := text "chatId is required"; status := 400 |}, w))
  /\ (forall c u,
        chatId = Some c -> c <> "" -> w_session w = Some u ->
        (fst (getChatById c w) = resolved None ->
         GET req w
         = (resolved {| body := text "Chat not found"; status := 404 |}, w))
        /\ (forall chat, fst (getChatById c w) = resolved (Some chat) ->
            GET req w
            = (resolved {| body := json (filter (fun v => chat_id v = c) (w_votes w));
                           status := 200 |}, w)
            /\ ((forall v, v ∈ w_votes w -> chat_id v <> c) ->
                GET req w = (resolved {| body := json []; status := 200 |}, w)))).
Proof.
  intros chatId. subst chatId. split.
  - apply GET_missing.
  - intros c u Hq Hc Hs. pose proof (model_auth w u Hs) as Hauth. split.
    + intros Hnone. apply (GET_not_found req c u w w w); try done.
      by apply (model_chat_eq w c u).
    + intros chat Hsome.
      assert (Hget : GET req w
        = (resolved {| body := json (filter (fun v => chat_id v = c) (w_votes w));
                       status := 200 |}, w)).
      { apply (GET_found req c u chat _ w w w w); try done.
        by apply (model_chat_eq w c u). }
      split; [done|]. intros Hno. rewrite Hget.
      by rewrite filter_chat_none.
Qed.

Lemma C4_GET_votes_witness :
  GET {| query := []; request_json := json_throws |} sample_world
  = (resolved {| body := text "chatId is required"; status := 400 |}, sample_world)
  /\ GET (get_request "c9") sample_world
     = (resolved {| body := text "Chat not found"; status := 404 |}, sample_world)
  /\ GET (get_request "c1") sample_world
     = (resolved {| body := json []; status := 200 |}, sample_world).
Proof.
  split; [|split].
  - apply (C4_GET_votes {| query := []; request_json := json_throws |}
             sample_world).
    reflexivity.
  - apply (proj2 (C4_GET_votes (get_request "c9") sample_world) "c9" reviewer);
      first [discriminate | reflexivity].
  - destruct (proj2 (C4_GET_votes (get_request "c1") sample_world) "c1" reviewer
                eq_refl ltac:(discriminate) eq_refl) as [_ Hfound].
    destruct (Hfound {| chat_ident := "c1"; chat_owner := "u1" |} eq_refl)
      as [Hget _].
    exact Hget.
Defined.

(* ===================================================================== *)
(** * Theorems: the [Chat] component                                      *)
(* ===================================================================== *)

Lemma useChat_read_to_the_end {UI : Type} (onFinish onError : UI -> UI)
    (events : list StreamEvent) (ui : UI) :
  error_event ∉ events -> useChat onFinish onError events ui = onFinish ui.
Proof.
  induction events as [|e events IH]; [done|].
  rewrite not_elem_of_cons. intros [Hne Hni].
  destruct e as [d| |]; simpl; [by apply IH | by apply IH | done].
Qed.

Lemma useChat_error {UI : Type} (onFinish onError : UI -> UI)
    (events : list StreamEvent) (ui : UI) :
  error_event ∈ events -> useChat onFinish onError events ui = onError ui.
Proof.
  induction events as [|e events IH]; [by intros Hin; apply elem_of_nil in Hin|].
  rewrite elem_of_cons. intros [Heq | Hin].
  - by subst e.
  - destruct e as [d| |]; simpl; [by apply IH | by apply IH | done].
Qed.

Lemma deltas_then_finish_no_error (deltas : list Delta) :
  error_event ∉ (delta <$> deltas) ++ [finish].
Proof.
  rewrite elem_of_app, list_elem_of_fmap, list_elem_of_singleton.
  intros [(d & Hd & _) | Hf]; discriminate.
Qed.

(** C7: whenever the stream of a turn reaches [finish], that is, it is
    read to its end without an error event (deltas followed by [finish] in
    particular), the [Chat] component hands SWR the history pagination key
    derived from its [workspaceId] for revalidation, and raises no notice;
    whenever the stream ends in an error event, it raises the failure
    notice and refreshes nothing. *)
Theorem C7_finish_invalidates_error_notifies {K : Type}
    (getChatHistoryPaginationKey : string -> K) (workspaceId : string)
    (events : list StreamEvent) (deltas : list Delta) (ui : ChatUI K) :
  let refreshed :=
    {| revalidated := revalidated ui ++ [getChatHistoryPaginationKey workspaceId];
       notices := notices ui |} in
  let notified :=
    {| revalidated := revalidated ui;
       notices := notices ui
                  ++ [toast_error "An error occurred, please try again!"] |} in
  Chat getChatHistoryPaginationKey workspaceId ((delta <$> deltas) ++ [finish]) ui
  = refreshed
  /\ (error_event ∉ events ->
      Chat getChatHistoryPaginationKey workspaceId events ui = refreshed)
  /\ Chat getChatHistoryPaginationKey workspaceId
       ((delta <$> deltas) ++ [error_event]) ui
     = notified
  /\ (error_event ∈ events ->
      Chat getChatHistoryPaginationKey workspaceId events ui = notified).
Proof.
  intros refreshed notified. unfold Chat.
  split; [|split; [|split]].
  - rewrite useChat_read_to_the_end; [done|]. apply deltas_then_finish_no_error.
  - intros Hno. by rewrite useChat_read_to_the_end.
  - rewrite useChat_error; [done|]. rewrite elem_of_app. right. left.
  - intros Herr. by rewrite useChat_error.
Qed.

Lemma C7_finish_invalidates_error_notifies_witness :
  Chat (fun workspaceId => "history:" +:+ workspaceId) "ws1"
    [delta (text_delta "Hi"); delta (tool_call "t"); finish]
    {| revalidated := []; notices := [] |}
  = {| revalidated := ["history:ws1"]; notices := [] |}
  /\ Chat (fun workspaceId => "history:" +:+ workspaceId) "ws1"
       [delta (text_delta "Hi"); finish; error_event]
       {| revalidated := []; notices := [] |}
     = {| revalidated := [];
          notices := [toast_error "An error occurred, please try again!"] |}.
Proof.
  split.
  - apply (proj1 (proj2 (C7_finish_invalidates_error_notifies
                           (fun workspaceId => "history:" +:+ workspaceId) "ws1"
                           [delta (text_delta "Hi"); delta (tool_call "t"); finish]
                           [] {| revalidated := []; notices := [] |}))).
    repeat (apply not_elem_of_cons; split; [discriminate|]).
    apply not_elem_of_nil.
  - apply (proj2 (proj2 (proj2 (C7_finish_invalidates_error_notifies
                                  (fun workspaceId => "history:" +:+ workspaceId) "ws1"
                                  [delta (text_delta "Hi"); finish; error_event]
                                  [] {| revalidated := []; notices := [] |})))).
    right. right. left.
Defined.

(* ===================================================================== *)
(** * Further properties: the cache write                                 *)
(* ===================================================================== *)

(** X1: a vote on one message leaves the cached votes of every other
    message as they were: the entries of another message are the same, in
    the same order, and so is the vote shown for it. *)
Theorem votesUpdater_other_messages_untouched
    (c m u : string) (b : bool) (l : list WorkspaceChatVote) (m' : string) :
  m' <> m ->
  filter (fun v => message_id v = m') (votesUpdater c m u b (Some l))
  = filter (fun v => message_id v = m') l
  /\ voteOf m' (votesUpdater c m u b (Some l)) = voteOf m' l.
Proof.
  intros Hne. unfold votesUpdater. split.
  - rewrite filter_app, filter_other_filter_keep by done.
    rewrite filter_cons_False; [by rewrite app_nil_r|]. simpl. congruence.
  - rewrite voteOf_app, voteOf_filter_other by done.
    destruct (voteOf m' l); [done|]. unfold voteOf; simpl.
    rewrite bool_decide_eq_false_2; [done|]. congruence.
Qed.

Lemma votesUpdater_other_messages_untouched_witness :
  voteOf "m2" (votesUpdater "c1" "m1" "u1" false
                 (Some [mkVote "c1" "m2" true "u1"; mkVote "c1" "m1" true "u1"]))
  = Some (mkVote "c1" "m2" true "u1").
Proof.
  apply (proj2 (votesUpdater_other_messages_untouched "c1" "m1" "u1" false
                  [mkVote "c1" "m2" true "u1"; mkVote "c1" "m1" true "u1"] "m2"
                  ltac:(discriminate))).
Defined.

Lemma keep_ids_notin (m : string) (l : list WorkspaceChatVote) :
  m ∉ message_id <$> filter (fun vote => message_id vote <> m) l.
Proof.
  intros Hin. apply list_elem_of_fmap in Hin as (v & Hm & Hv).
  apply list_elem_of_filter in Hv as [Hk _]. by apply Hk.
Qed.

Lemma keep_ids_NoDup (m : string) (l : list WorkspaceChatVote) :
  NoDup (message_id <$> l) ->
  NoDup (message_id <$> filter (fun vote => message_id vote <> m) l).
Proof.
  induction l as [|v l IH]; [done|]. csimpl. rewrite NoDup_cons.
  intros [Hni Hnd].
  destruct (decide (message_id v <> m)) as [Hk|Hk].
  - rewrite filter_cons_True by done. csimpl. apply NoDup_cons. split.
    + intros Hin. apply Hni.
      apply list_elem_of_fmap in Hin as (v' & Hm & Hv').
      apply list_elem_of_filter in Hv' as [_ Hv'].
      rewrite Hm. by apply list_elem_of_fmap_2.
    + by apply IH.
  - rewrite filter_cons_False by done. by apply IH.
Qed.

Lemma keep_length (m : string) (l : list WorkspaceChatVote) :
  NoDup (message_id <$> l) ->
  length (filter (fun vote => message_id vote <> m) l)
  = if decide (m ∈ message_id <$> l) then pred (length l) else length l.
Proof.
  induction l as [|v l IH]; csimpl.
  - intros _. by destruct (decide (m ∈ [])).
  - rewrite NoDup_cons. intros [Hni Hnd]. specialize (IH Hnd).
    destruct (decide (message_id v = m)) as [Heq|Hne].
    + rewrite filter_cons_False by (by intros Hn; apply Hn).
      rewrite decide_True by (rewrite Heq; left). simpl.
      rewrite IH, decide_False; [done|]. by rewrite <- Heq.
    + rewrite filter_cons_True by done. simpl. rewrite IH.
      destruct (decide (m ∈ message_id <$> l)) as [Hin|Hnin].
      * rewrite decide_True by (by right). simpl.
        destruct l; [by apply elem_of_nil in Hin | done].
      * rewrite decide_False; [done|].
        rewrite not_elem_of_cons. split; [congruence | done].
Qed.

(** X2: the cache write keeps the cached list free of duplicate message
    ids: from a list with one entry per message it yields a list with one
    entry per message, of the same length when the message had a vote and
    one longer when it had none. *)
Theorem votesUpdater_keeps_one_entry_per_message
    (c m u : string) (b : bool) (l : list WorkspaceChatVote) :
  NoDup (message_id <$> l) ->
  NoDup (message_id <$> votesUpdater c m u b (Some l))
  /\ length (votesUpdater c m u b (Some l))
     = if decide (m ∈ message_id <$> l) then length l else S (length l).
Proof.
  intros Hnd. unfold votesUpdater. split.
  - rewrite fmap_app. apply NoDup_app. split; [by apply keep_ids_NoDup|].
    split; [|apply NoDup_singleton].
    intros k Hk. csimpl. rewrite list_elem_of_singleton. intros ->.
    by apply (keep_ids_notin m l).
  - rewrite length_app, keep_length by done. simpl.
    destruct (decide (m ∈ message_id <$> l)) as [Hin|Hnin]; [|lia].
    destruct l; [by apply elem_of_nil in Hin | simpl; lia].
Qed.

Lemma votesUpdater_keeps_one_entry_per_message_witness :
  length (votesUpdater "c1" "m1" "u1" false
            (Some [mkVote "c1" "m2" true "u1"; mkVote "c1" "m1" true "u1"]))
  = 2.
Proof.
  apply (proj2 (votesUpdater_keeps_one_entry_per_message "c1" "m1" "u1" false
                  [mkVote "c1" "m2" true "u1"; mkVote "c1" "m1" true "u1"]
                  ltac:(apply (bool_decide_unpack _); vm_compute; exact I))).
Defined.

(* ===================================================================== *)
(** * Further properties: votes, chats and promises                       *)
(* ===================================================================== *)

Lemma voteKey_inj (c c' : string) : voteKey c = voteKey c' -> c = c'.
Proof. unfold voteKey. simpl. intros Heq. by simplify_eq. Qed.

(** X3: a vote settles into the cached list of its own chat only.  Whatever
    the outcome of the request, the cached data of every other key is left
    as it was; in particular the list the [Chat] component of another chat
    reads is never changed by this vote. *)
Theorem vote_touches_only_its_chat
    (d : Direction) (p : Props) (u : User) (c : Client) (r : FetchResult) :
  let c2 := settle (length (pending c)) r (onClick d p u c) in
  (forall key, key <> voteKey (chatId p) -> swr c2 !! key = swr c !! key)
  /\ (forall chat n key,
        chat <> chatId p -> Chat_votesKey chat n = Some key ->
        swr c2 !! key = swr c !! key).
Proof.
  intros c2. subst c2.
  assert (Hkeys : forall key, key <> voteKey (chatId p) ->
            swr (settle (length (pending c)) r (onClick d p u c)) !! key
            = swr c !! key).
  { intros key Hne.
    destruct (settle_onClick d p u c r) as (_ & Hfail & Hok).
    destruct (mutation_failed r) eqn:Hr.
    - by destruct (Hfail eq_refl) as [-> _].
    - rewrite (Hok eq_refl). by apply mutate_lookup_ne. }
  split; [exact Hkeys|].
  intros chat n key Hne Hkey. apply Hkeys.
  unfold Chat_votesKey in Hkey. destruct (2 <=? n)%nat; [|discriminate].
  injection Hkey as <-. intros Heq. apply Hne. by apply voteKey_inj.
Qed.

Lemma vote_touches_only_its_chat_witness :
  swr (settle 0 (Fulfilled 200)
         (onClick up assistant_props reviewer fetched_client))
    !! "/api/vote?chatId=c2"
  = swr fetched_client !! "/api/vote?chatId=c2".
Proof.
  apply (proj2 (vote_touches_only_its_chat up assistant_props reviewer
                  fetched_client (Fulfilled 200)) "c2" 2);
    [discriminate | reflexivity].
Defined.

(** X4: the list [Chat] reads is the list the vote buttons write.  With
    fewer than two messages [Chat] fetches no votes; otherwise its key for
    chat [id] is the key a vote in that chat mutates, so after a
    successful vote [Chat] reads the updated list. *)
Theorem Chat_reads_what_votes_write
    (d : Direction) (p : Props) (u : User) (c : Client) (r : FetchResult)
    (n : nat) :
  (n < 2 -> Chat_votesKey (chatId p) n = None)
  /\ (2 <= n ->
      Chat_votesKey (chatId p) n = Some (voteKey (chatId p))
      /\ (mutation_failed r = false ->
          swr (settle (length (pending c)) r (onClick d p u c))
            !! voteKey (chatId p)
          = Some (votesUpdater (chatId p) (id (message p)) (uid u) (isUp d)
                    (swr c !! voteKey (chatId p))))).
Proof.
  unfold Chat_votesKey. split.
  - intros Hn. by rewrite (proj2 (Nat.leb_gt 2 n)).
  - intros Hn. rewrite (proj2 (Nat.leb_le 2 n)) by done. split; [done|].
    intros Hr. destruct (settle_onClick d p u c r) as (_ & _ & Hok).
    rewrite (Hok Hr). apply mutate_lookup.
Qed.

Lemma Chat_reads_what_votes_write_witness :
  Chat_votesKey "c1" 1 = None
  /\ Chat_votesKey "c1" 2 = Some (voteKey "c1").
Proof.
  split.
  - apply (proj1 (Chat_reads_what_votes_write up assistant_props reviewer
                    fetched_client (Fulfilled 200) 1)). lia.
  - apply (proj2 (Chat_reads_what_votes_write up assistant_props reviewer
                    fetched_client (Fulfilled 200) 2)). lia.
Defined.

Lemma settle_rest i r c data :
  pending c !! i = Some data -> pending (settle i r c) = delete i (pending c).
Proof.
  intros Hp. unfold settle. rewrite Hp.
  destruct r as [st|]; [|done].
  destruct (response_ok st); [|done].
  by destruct (success data (swr c)).
Qed.

(** Two votes on the same message in flight at once, both answered ok. *)
Lemma two_votes_in_flight d1 d2 p u c :
  exists data1 data2,
    let key := voteKey (chatId p) in
    let write d := votesUpdater (chatId p) (id (message p)) (uid u) (isUp d) in
    pending (onClick d2 p u (onClick d1 p u c)) = pending c ++ [data1; data2]
    /\ swr (onClick d2 p u (onClick d1 p u c)) = swr c
    /\ (forall cache, fst (success data1 cache) = mutate key (write d1) cache)
    /\ (forall cache, fst (success data2 cache) = mutate key (write d2) cache).
Proof.
  destruct (onClick_pending d1 p u c) as (data1 & Hp1 & Hs1 & _).
  destruct (onClick_pending d2 p u (onClick d1 p u c)) as (data2 & Hp2 & Hs2 & _).
  exists data1, data2. simpl.
  rewrite Hp2, Hp1, <- app_assoc, !onClick_swr. done.
Qed.

(** X5: with two votes on one message in flight, the cache follows the
    order in which the requests are answered, not the order of the clicks.
    Answered in click order, the second click shows; answered in the
    opposite order, the first click shows although it is the older one. *)
Theorem last_answered_vote_wins
    (d1 d2 : Direction) (p : Props) (u : User) (c : Client)
    (r1 r2 : FetchResult) (l : list WorkspaceChatVote) :
  mutation_failed r1 = false -> mutation_failed r2 = false ->
  swr c !! voteKey (chatId p) = Some l ->
  let n := length (pending c) in
  let c2 := onClick d2 p u (onClick d1 p u c) in
  let write d := votesUpdater (chatId p) (id (message p)) (uid u) (isUp d) in
  swr (settle n r2 (settle n r1 c2)) !! voteKey (chatId p)
  = Some (write d2 (Some l))
  /\ swr (settle n r1 (settle (S n) r2 c2)) !! voteKey (chatId p)
     = Some (write d1 (Some l)).
Proof.
  intros Hr1 Hr2 Hl n c2 write. subst n c2 write. cbv beta.
  destruct (two_votes_in_flight d1 d2 p u c)
    as (data1 & data2 & Hp & Hswr & Hs1 & Hs2). simpl in Hp, Hs1, Hs2.
  set (c2 := onClick d2 p u (onClick d1 p u c)) in *.
  set (n := length (pending c)).
  assert (H1 : pending c2 !! n = Some data1).
  { rewrite Hp. by rewrite list_lookup_middle. }
  assert (H2 : pending c2 !! S n = Some data2).
  { rewrite Hp. rewrite (app_assoc _ [data1] [data2]).
    rewrite list_lookup_middle; [done|]. rewrite length_app. simpl. lia. }
  split.
  - destruct (settle_pending n r1 c2 data1 H1) as (_ & _ & Hok1).
    destruct (Hok1 Hr1) as [Hswr1 _].
    assert (H2' : pending (settle n r1 c2) !! n = Some data2).
    { rewrite (settle_rest n r1 c2 data1 H1), Hp. unfold n.
      rewrite delete_middle. by rewrite list_lookup_middle. }
    destruct (settle_pending n r2 _ data2 H2') as (_ & _ & Hok2).
    destruct (Hok2 Hr2) as [-> _].
    rewrite Hs2, mutate_lookup, Hswr1, Hs1, mutate_lookup, Hswr, Hl.
    by rewrite votesUpdater_last_wins.
  - destruct (settle_pending (S n) r2 c2 data2 H2) as (_ & _ & Hok2).
    destruct (Hok2 Hr2) as [Hswr2 _].
    assert (H1' : pending (settle (S n) r2 c2) !! n = Some data1).
    { rewrite (settle_rest (S n) r2 c2 data2 H2), Hp.
      rewrite (app_assoc _ [data1] [data2]).
      replace (S n) with (length (pending c ++ [data1]))
        by (rewrite length_app; simpl; lia).
      rewrite delete_middle, app_nil_r. unfold n.
      by rewrite list_lookup_middle. }
    destruct (settle_pending n r1 _ data1 H1') as (_ & _ & Hok1).
    destruct (Hok1 Hr1) as [-> _].
    rewrite Hs1, mutate_lookup, Hswr2, Hs2, mutate_lookup, Hswr, Hl.
    by rewrite votesUpdater_last_wins.
Qed.

Lemma last_answered_vote_wins_witness :
  swr (settle 0 (Fulfilled 200) (settle 1 (Fulfilled 200)
         (onClick down assistant_props reviewer
            (onClick up assistant_props reviewer fetched_client))))
    !! voteKey "c1"
  = Some [mkVote "c1" "m1" true "u1"].
Proof.
  apply (proj2 (last_answered_vote_wins up down assistant_props reviewer
                  fetched_client (Fulfilled 200) (Fulfilled 200) []
                  eq_refl eq_refl eq_refl)).
Defined.

(* ===================================================================== *)
(** * Further properties: buttons and memo                                *)
(* ===================================================================== *)

(** X6: the vote buttons only let the user change a vote.  A rendered
    component never disables both buttons; pressing the direction that is
    already cached does nothing (no request, no toast, no promise), and
    pressing the other direction runs its click handler. *)
Theorem press_only_changes_votes
    (d : Direction) (p : Props) (u : User) (c : Client)
    (controls : Controls) (v : WorkspaceChatVote) :
  PureMessageActions p = Some controls ->
  upvote_disabled controls && downvote_disabled controls = false
  /\ (vote p = Some v -> is_upvoted v = isUp d -> press d p u c = c)
  /\ (vote p = Some v -> is_upvoted v = negb (isUp d) ->
      press d p u c = onClick d p u c)
  /\ (vote p = None -> press d p u c = onClick d p u c).
Proof.
  intros Hr. unfold press. rewrite Hr.
  apply PureMessageActions_rendered in Hr as (_ & _ & ->). simpl.
  split; [|split; [|split]].
  - destruct (vote p) as [w|]; simpl; [by destruct (is_upvoted w) | done].
  - intros -> Hv. simpl. rewrite Hv. by destruct d.
  - intros -> Hv. simpl. rewrite Hv. by destruct d.
  - intros ->. by destruct d.
Qed.

Lemma press_only_changes_votes_witness :
  press up upvoted_props reviewer fetched_client = fetched_client
  /\ press down upvoted_props reviewer fetched_client
     = onClick down upvoted_props reviewer fetched_client.
Proof.
  destruct (press_only_changes_votes up upvoted_props reviewer fetched_client
              _ (mkVote "c1" "m1" true "u1") eq_refl) as (_ & Hsame & _ & _).
  destruct (press_only_changes_votes down upvoted_props reviewer fetched_client
              _ (mkVote "c1" "m1" true "u1") eq_refl) as (_ & _ & Hother & _).
  split; [exact (Hsame eq_refl eq_refl) | exact (Hother eq_refl eq_refl)].
Defined.

Lemma propsAreEqual_spec (prevProps nextProps : Props) :
  MessageActions_propsAreEqual prevProps nextProps = true
  <-> vote prevProps = vote nextProps /\ isLoading prevProps = isLoading nextProps.
Proof.
  unfold MessageActions_propsAreEqual.
  destruct (decide (vote prevProps = vote nextProps)) as [Hv|Hv].
  - rewrite (bool_decide_eq_true_2 _ Hv). simpl.
    destruct (decide (isLoading prevProps = isLoading nextProps)) as [Hl|Hl].
    + rewrite (bool_decide_eq_true_2 _ Hl). simpl. done.
    + rewrite (bool_decide_eq_false_2 _ Hl). simpl. split; [done | by intros []].
  - rewrite (bool_decide_eq_false_2 _ Hv). simpl. split; [done | by intros []].
Qed.

(** X7: what the memo comparator of [MessageActions] guarantees, and what
    it does not.  When it returns true (the [vote] and [isLoading] props
    are equal) and the role of the message is unchanged, the render React
    keeps and a fresh render of the new props agree on being [null] and on
    both disabled flags.  Their handlers do not agree: the handlers of the
    kept render are closed over the previous props, so a vote pressed on it
    sends the previous [chatId] and message id, and its copy button copies
    the previous message.  The comparator cannot notice this: it ignores
    [chatId] and [message], and props that differ only there always compare
    equal. *)
Theorem memo_keeps_flags_not_handlers (prevProps nextProps : Props) :
  MessageActions_propsAreEqual prevProps nextProps = true ->
  role (message prevProps) = role (message nextProps) ->
  (PureMessageActions prevProps = None <-> PureMessageActions nextProps = None)
  /\ (forall kept fresh,
        PureMessageActions prevProps = Some kept ->
        PureMessageActions nextProps = Some fresh ->
        upvote_disabled kept = upvote_disabled fresh
        /\ downvote_disabled kept = downvote_disabled fresh
        /\ (forall u c,
              requests (upvote_onClick kept u c)
              = requests c ++ [vote_body up prevProps]
              /\ requests (downvote_onClick kept u c)
                 = requests c ++ [vote_body down prevProps]
              /\ requests (upvote_onClick fresh u c)
                 = requests c ++ [vote_body up nextProps]
              /\ requests (downvote_onClick fresh u c)
                 = requests c ++ [vote_body down nextProps])
        /\ (forall accepts ui,
              copy_onClick kept accepts ui
              = onClick_copy accepts (parts (message prevProps)) ui))
  /\ (forall chat msg,
        MessageActions_propsAreEqual prevProps
          {| chatId := chat; message := msg; vote := vote nextProps;
             isLoading := isLoading nextProps |} = true).
Proof.
  intros Heq Hrole. apply propsAreEqual_spec in Heq as [Hv Hl].
  split; [|split].
  - unfold PureMessageActions. rewrite Hl, Hrole.
    destruct (isLoading nextProps); [done|].
    by destruct (decide (role (message nextProps) = user)).
  - intros kept fresh Hkept Hfresh.
    apply PureMessageActions_rendered in Hkept as (_ & _ & ->).
    apply PureMessageActions_rendered in Hfresh as (_ & _ & ->).
    simpl. rewrite Hv. done.
  - intros chat msg. by apply propsAreEqual_spec.
Qed.

Lemma memo_keeps_flags_not_handlers_witness :
  exists kept fresh,
    PureMessageActions assistant_props = Some kept
    /\ PureMessageActions other_assistant_props = Some fresh
    /\ upvote_disabled kept = upvote_disabled fresh
    /\ requests (upvote_onClick kept reviewer fresh_client)
       = [ {| body_chatId := Some "c1"; body_messageId := Some "m1";
              body_type := Some "up" |} ]
    /\ requests (upvote_onClick fresh reviewer fresh_client)
       = [ {| body_chatId := Some "c2"; body_messageId := Some "m9";
              body_type := Some "up" |} ].
Proof.
  eexists. eexists. split; [reflexivity|]. split; [reflexivity|].
  destruct (proj1 (proj2 (memo_keeps_flags_not_handlers assistant_props
                            other_assistant_props eq_refl eq_refl))
              _ _ eq_refl eq_refl) as (Hup & _ & Hreq & _).
  destruct (Hreq reviewer fresh_client) as (Hkept & _ & Hfresh & _).
  split; [exact Hup|]. split; [exact Hkept | exact Hfresh].
Defined.

(* ===================================================================== *)
(** * Further properties: the route handlers                              *)
(* ===================================================================== *)

Lemma truthy_false_or_value (v : option string) :
  truthy v = false \/ exists x, v = Some x /\ x <> "" /\ truthy v = true.
Proof.
  destruct (truthy v) eqn:Hv; [right | by left].
  destruct (truthy_true v Hv) as (x & -> & Hx). by exists x.
Qed.

Section HandlerInversion.
Context {W : Type} `{DataLayer W}.

(** The handlers as the sequence of their awaited calls. *)
Lemma PATCH_run q (c m t : string) (w : W) :
  c <> "" -> m <> "" -> t <> "" ->
  PATCH {| query := q;
           request_json := json_object (mkVoteBody (Some c) (Some m) (Some t)) |} w
  = match serverGetLoggedInUser w with
    | (threw, w1) => (threw, w1)
    | (resolved _, w1) =>
        match getChatById c w1 with
        | (threw, w2) => (threw, w2)
        | (resolved None, w2) =>
            (resolved {| body := text "Chat not found"; status := 404 |}, w2)
        | (resolved (Some _), w2) =>
            match voteMessage c m t w2 with
            | (threw, w3) => (threw, w3)
            | (resolved _, w3) =>
                (resolved {| body := text "Message voted"; status := 200 |}, w3)
            end
        end
    end.
Proof.
  intros Hc Hm Ht. erewrite PATCH_readable by reflexivity.
  cbn [body_chatId body_messageId body_type str].
  rewrite !truthy_Some by done. cbn [negb orb].
  unfold await.
  destruct (serverGetLoggedInUser w) as [[u|] w1]; [|done].
  destruct (getChatById c w1) as [[[chat|]|] w2]; try done.
Qed.

Lemma GET_run (req : Request) (c : string) (w : W) :
  searchParams_get "chatId" (query req) = Some c -> c <> "" ->
  GET req w
  = match serverGetLoggedInUser w with
    | (threw, w1) => (threw, w1)
    | (resolved _, w1) =>
        match getChatById c w1 with
        | (threw, w2) => (threw, w2)
        | (resolved None, w2) =>
            (resolved {| body := text "Chat not found"; status := 404 |}, w2)
        | (resolved (Some _), w2) =>
            match getVotesByChatId c w2 with
            | (threw, w3) => (threw, w3)
            | (resolved votes, w3) =>
                (resolved {| body := json votes; status := 200 |}, w3)
            end
        end
    end.
Proof.
  intros Hq Hc. unfold GET. rewrite Hq, truthy_Some by done. cbn [negb str].
  unfold await.
  destruct (serverGetLoggedInUser w) as [[u|] w1]; [|done].
  destruct (getChatById c w1) as [[[chat|]|] w2]; try done.
Qed.

Lemma PATCH_body_cases (b : VoteBody) :
  (truthy (body_chatId b) = false \/ truthy (body_messageId b) = false
   \/ truthy (body_type b) = false)
  \/ exists c m t, b = mkVoteBody (Some c) (Some m) (Some t)
                   /\ c <> "" /\ m <> "" /\ t <> "".
Proof.
  destruct b as [oc om ot]. simpl.
  destruct (truthy_false_or_value oc) as [Hc | (c & -> & Hc & _)]; [by left; left|].
  destruct (truthy_false_or_value om) as [Hm | (m & -> & Hm & _)];
    [by left; right; left|].
  destruct (truthy_false_or_value ot) as [Ht | (t & -> & Ht & _)];
    [by left; right; right|].
  right. by exists c, m, t.
Qed.

(** X8: every answer of PATCH /vote, read backwards.  A resolved response
    implies that the body could be read, and it
    is one of three: 400 with nothing called and the world untouched; 404
    after the caller resolved and the chat lookup found nothing, with no
    vote written; or 200, and then the body had three non-empty fields, the
    caller and the chat resolved, and [voteMessage] ran once with exactly
    the body's [chatId], [messageId] and [type]. *)
Theorem PATCH_answers_read_backwards (req : Request) (w w' : W) (r : Response) :
  PATCH req w = (resolved r, w') ->
  (exists fields,
     request_json req = json_object fields
     /\ r = {| body := text "messageId and type are required"; status := 400 |}
     /\ w' = w
     /\ (truthy (body_chatId fields) = false
         \/ truthy (body_messageId fields) = false
         \/ truthy (body_type fields) = false))
  \/ (exists c m t u w1,
        request_json req = json_object (mkVoteBody (Some c) (Some m) (Some t))
        /\ c <> "" /\ m <> "" /\ t <> ""
        /\ serverGetLoggedInUser w = (resolved u, w1)
        /\ ((r = {| body := text "Chat not found"; status := 404 |}
             /\ getChatById c w1 = (resolved None, w'))
            \/ (r = {| body := text "Message voted"; status := 200 |}
                /\ exists chat w2,
                     getChatById c w1 = (resolved (Some chat), w2)
                     /\ voteMessage c m t w2 = (resolved tt, w')))).
Proof.
  intros HP.
  destruct (request_json req) as [fields|] eqn:Hj;
    [|by rewrite (PATCH_unreadable req w Hj) in HP].
  destruct (PATCH_body_cases fields)
    as [Hmissing | (c & m & t & Hb & Hc & Hm & Ht)].
  - left. rewrite (PATCH_missing req fields w Hj Hmissing) in HP.
    injection HP as <- <-. by exists fields.
  - right. destruct req as [q j]. simpl in Hj. subst j fields.
    rewrite (PATCH_run q c m t w Hc Hm Ht) in HP.
    destruct (serverGetLoggedInUser w) as [[u|] w1] eqn:Hauth; [|discriminate].
    exists c, m, t, u, w1. repeat (split; [done|]).
    destruct (getChatById c w1) as [[[chat|]|] w2] eqn:Hchat; try discriminate.
    + right.
      destruct (voteMessage c m t w2) as [[[]|] w3] eqn:Hvote; [|discriminate].
      injection HP as <- <-. split; [done|]. by exists chat, w2.
    + left. by injection HP as <- <-.
Qed.

(** X9: every answer of GET /vote, read backwards.  A resolved response is
    400 with the world untouched, 404 after the caller resolved and the
    chat lookup found nothing, or 200; the vote rows are sent only in the
    200 answer, after the caller and the chat resolved, and they are what
    [getVotesByChatId] returned for the requested chat. *)
Theorem GET_answers_read_backwards (req : Request) (w w' : W) (r : Response) :
  GET req w = (resolved r, w') ->
  (r = {| body := text "chatId is required"; status := 400 |}
   /\ w' = w
   /\ truthy (searchParams_get "chatId" (query req)) = false)
  \/ (exists c u w1,
        searchParams_get "chatId" (query req) = Some c /\ c <> ""
        /\ serverGetLoggedInUser w = (resolved u, w1)
        /\ ((r = {| body := text "Chat not found"; status := 404 |}
             /\ getChatById c w1 = (resolved None, w'))
            \/ (exists chat w2 votes,
                  r = {| body := json votes; status := 200 |}
                  /\ getChatById c w1 = (resolved (Some chat), w2)
                  /\ getVotesByChatId c w2 = (resolved votes, w')))).
Proof.
  intros HG.
  destruct (truthy_false_or_value (searchParams_get "chatId" (query req)))
    as [Hmissing | (c & Hq & Hc & _)].
  - left. rewrite (GET_missing req w Hmissing) in HG.
    injection HG as <- <-. done.
  - right. rewrite (GET_run req c w Hq Hc) in HG.
    destruct (serverGetLoggedInUser w) as [[u|] w1] eqn:Hauth; [|discriminate].
    exists c, u, w1. repeat (split; [done|]).
    destruct (getChatById c w1) as [[[chat|]|] w2] eqn:Hchat; try discriminate.
    + right.
      destruct (getVotesByChatId c w2) as [[votes|] w3] eqn:Hvotes; [|discriminate].
      injection HG as <- <-. by exists chat, w2, votes.
    + left. by injection HG as <- <-.
Qed.

(** X10: a caller that does not resolve gets nothing out of either handler
    but the 400 of a malformed request: otherwise the handler throws with
    the world as the failed authentication left it (or, for a PATCH body
    that cannot be read, untouched, before authentication), before any
    chat is looked up and before any vote is read or written. *)
Theorem handlers_stop_at_failed_authentication (req : Request) (w w1 : W) :
  serverGetLoggedInUser w = (threw, w1) ->
  (PATCH req w
   = (resolved {| body := text "messageId and type are required";
                  status := 400 |}, w)
   \/ PATCH req w = (threw, w1)
   \/ (request_json req = json_throws /\ PATCH req w = (threw, w)))
  /\ (GET req w
      = (resolved {| body := text "chatId is required"; status := 400 |}, w)
      \/ GET req w = (threw, w1)).
Proof.
  intros Hauth. split.
  - destruct (request_json req) as [fields|] eqn:Hj;
      [|right; right; split; [done | by apply PATCH_unreadable]].
    destruct (PATCH_body_cases fields)
      as [Hmissing | (c & m & t & Hb & Hc & Hm & Ht)].
    + left. by apply (PATCH_missing req fields).
    + right. left. destruct req as [q j]. simpl in Hj. subst j fields.
      by rewrite (PATCH_run q c m t w Hc Hm Ht), Hauth.
  - destruct (truthy_false_or_value (searchParams_get "chatId" (query req)))
      as [Hmissing | (c & Hq & Hc & _)].
    + left. by apply GET_missing.
    + right. by rewrite (GET_run req c w Hq Hc), Hauth.
Qed.

(** X11: the vote buttons never send a body the handler turns down as
    malformed, provided the chat id and the message id are not empty: the
    answer to the request of a button is never 400, and the [type] that
    reaches [voteMessage] is ["up"] or ["down"].  With an empty chat id or
    message id the answer is always 400. *)
Theorem vote_buttons_send_valid_body
    (d : Direction) (p : Props) (q : list (string * string)) (w : W) :
  let req := {| query := q; request_json := json_object (vote_body d p) |} in
  (chatId p <> "" -> id (message p) <> "" ->
   forall r w',
     PATCH req w = (resolved r, w') ->
     status r <> 400
     /\ (status r = 200 ->
         exists w2, voteMessage (chatId p) (id (message p)) (type_of d) w2
                    = (resolved tt, w')
                    /\ (type_of d = "up" \/ type_of d = "down")))
  /\ (chatId p = "" \/ id (message p) = "" ->
      PATCH req w
      = (resolved {| body := text "messageId and type are required";
                     status := 400 |}, w)).
Proof.
  intros req. subst req. split.
  - intros Hc Hm r w' HP.
    assert (Ht : type_of d <> "") by (by destruct d).
    unfold vote_body in HP. rewrite (PATCH_run q _ _ _ w Hc Hm Ht) in HP.
    destruct (serverGetLoggedInUser w) as [[u|] w1]; [|discriminate].
    destruct (getChatById (chatId p) w1) as [[[chat|]|] w2]; try discriminate.
    + destruct (voteMessage (chatId p) (id (message p)) (type_of d) w2)
        as [[[]|] w3] eqn:Hvote; [|discriminate].
      injection HP as <- <-. split; [done|]. intros _. exists w2.
      split; [done|]. destruct d; [by left | by right].
    + injection HP as <- <-. by split.
  - intros Hempty. apply (PATCH_missing _ (vote_body d p)); [done|].
    unfold vote_body. simpl.
    destruct Hempty as [-> | ->]; [by left | by right; left].
Qed.
End HandlerInversion.

Lemma PATCH_answers_read_backwards_witness :
  exists c m t u w1,
    request_json (patch_request "c1" "m1" "up")
    = json_object (mkVoteBody (Some c) (Some m) (Some t))
    /\ serverGetLoggedInUser sample_world = (resolved u, w1).
Proof.
  destruct (@PATCH_answers_read_backwards World model_DataLayer
              (patch_request "c1" "m1" "up") sample_world
              {| w_session := Some reviewer;
                 w_chats := [ {| chat_ident := "c1"; chat_owner := "u1" |} ];
                 w_votes := [ mkVote "c1" "m1" true "u1" ] |}
              {| body := text "Message voted"; status := 200 |}
              ltac:(reflexivity))
    as [(fields & _ & Hr & _) | (c & m & t & u & w1 & Hb & _ & _ & _ & Hauth & _)].
  - discriminate Hr.
  - by exists c, m, t, u, w1.
Defined.

Lemma GET_answers_read_backwards_witness :
  exists c u w1,
    searchParams_get "chatId" (query (get_request "c1")) = Some c
    /\ serverGetLoggedInUser sample_world = (resolved u, w1).
Proof.
  destruct (@GET_answers_read_backwards World model_DataLayer
              (get_request "c1") sample_world sample_world {| body := json []; status := 200 |}
              ltac:(reflexivity))
    as [(Hr & _) | (c & u & w1 & Hq & _ & Hauth & _)].
  - discriminate Hr.
  - by exists c, u, w1.
Defined.

Lemma handlers_stop_at_failed_authentication_witness :
  let req := mkRequest [("chatId", "c1")]
               (json_object (mkVoteBody (Some "c1") (Some "m1") (Some "up"))) in
  (PATCH req anonymous_world
   = (resolved {| body := text "messageId and type are required";
                  status := 400 |}, anonymous_world)
   \/ PATCH req anonymous_world = (threw, anonymous_world)
   \/ (request_json req = json_throws
       /\ PATCH req anonymous_world = (threw, anonymous_world)))
  /\ (GET req anonymous_world
      = (resolved {| body := text "chatId is required"; status := 400 |},
         anonymous_world)
      \/ GET req anonymous_world = (threw, anonymous_world)).
Proof.
  intros req.
  apply (@handlers_stop_at_failed_authentication World model_DataLayer
           (mkRequest [("chatId", "c1")]
              (json_object (mkVoteBody (Some "c1") (Some "m1") (Some "up"))))
           anonymous_world anonymous_world ltac:(reflexivity)).
Defined.

Lemma vote_buttons_send_valid_body_witness :
  status {| body := text "Message voted"; status := 200 |} <> 400.
Proof.
  destruct (proj1 (@vote_buttons_send_valid_body World model_DataLayer
                     up assistant_props [] sample_world)
              ltac:(discriminate) ltac:(discriminate)
              {| body := text "Message voted"; status := 200 |}
              {| w_session := Some reviewer;
                 w_chats := [ {| chat_ident := "c1"; chat_owner := "u1" |} ];
                 w_votes := [ mkVote "c1" "m1" true "u1" ] |}
              ltac:(reflexivity)) as [Hne _].
  exact Hne.
Defined.

(* ===================================================================== *)
(** * Further properties: the copy button                                 *)
(* ===================================================================== *)

Lemma trimStart_nil_iff (s : jsstring) : trimStart s = [] <-> blank s.
Proof.
  unfold blank. induction s as [|c s IH]; simpl.
  - split; [constructor | done].
  - destruct (isWhiteSpace c) eqn:Hc.
    + rewrite IH, Forall_cons. split; [by intros ? | by intros [_ ?]].
    + split; [discriminate|]. rewrite Forall_cons. intros [Hc' _]. congruence.
Qed.

Lemma trimStart_head (s : jsstring) (c : N) (rest : jsstring) :
  trimStart s = c :: rest -> isWhiteSpace c = false.
Proof.
  induction s as [|c' s IH]; simpl; [discriminate|].
  destruct (isWhiteSpace c') eqn:Hc; [done|]. by intros [= <- _].
Qed.

Lemma trimStart_fixed (c : N) (s : jsstring) :
  isWhiteSpace c = false -> trimStart (c :: s) = c :: s.
Proof. intros Hc. simpl. by rewrite Hc. Qed.

Lemma trimStart_snoc (s : jsstring) (c : N) :
  isWhiteSpace c = false -> trimStart (s ++ [c]) = trimStart s ++ [c].
Proof.
  intros Hc. induction s as [|c' s IH]; simpl; [by rewrite Hc|].
  by destruct (isWhiteSpace c').
Qed.

Lemma trim_nil_iff (s : jsstring) : trim s = [] <-> blank s.
Proof.
  unfold trim. split.
  - intros Hr.
    destruct (trimStart (rev (trimStart s))) as [|c0 y] eqn:Hy;
      [|simpl in Hr; by destruct (rev y)].
    apply trimStart_nil_iff in Hy. unfold blank in Hy.
    apply Forall_rev in Hy. rewrite rev_involutive in Hy.
    destruct (trimStart s) as [|c rest] eqn:Hd; [by apply trimStart_nil_iff|].
    apply trimStart_head in Hd. apply Forall_cons in Hy as [Hc _]. congruence.
  - intros Hb. apply trimStart_nil_iff in Hb. by rewrite Hb.
Qed.

(** A trimmed text that is not empty starts and ends with a code unit that
    is not white space. *)
Lemma trim_ends (s : jsstring) :
  trim s <> [] ->
  (exists c rest, trim s = c :: rest /\ isWhiteSpace c = false)
  /\ (exists front c, trim s = front ++ [c] /\ isWhiteSpace c = false).
Proof.
  unfold trim. intros Hne.
  destruct (trimStart s) as [|c d] eqn:Hd; [done|].
  pose proof (trimStart_head s c d Hd) as Hc. split.
  - exists c. simpl in *. rewrite trimStart_snoc by done.
    rewrite rev_app_distr. simpl. eauto.
  - destruct (trimStart (rev (c :: d))) as [|c' y] eqn:Hy; [done|].
    exists (rev y), c'. split; [done|]. by eapply trimStart_head.
Qed.

Lemma trim_idemp (s : jsstring) : trim (trim s) = trim s.
Proof.
  destruct (trim s) as [|c0 t0] eqn:Ht; [done|].
  destruct (trim_ends s) as [(c & rest & Hh & Hc) (front & c' & Hl & Hc')];
    [by rewrite Ht|].
  rewrite <- Ht. unfold trim at 1. rewrite Hh, trimStart_fixed by done.
  rewrite <- Hh, Hl, rev_app_distr. simpl. rewrite Hc'.
  simpl. by rewrite rev_involutive.
Qed.

Lemma join_cons (sep x : jsstring) (l : list jsstring) :
  join sep (x :: l) = match l with [] => x | _ => x ++ sep ++ join sep l end.
Proof. by destruct l. Qed.

Lemma join_blank (texts : list jsstring) :
  blank (join [10%N] texts) <-> Forall blank texts.
Proof.
  unfold blank. induction texts as [|x l IH]; [by split; constructor|].
  rewrite join_cons, Forall_cons. destruct l as [|y l'].
  - split; [by intros ?; split; [|constructor] | by intros []].
  - rewrite !Forall_app, IH. split.
    + by intros (? & _ & ?).
    + intros [? ?]. split; [done|]. split; [|done]. by repeat constructor.
Qed.

Lemma text_parts_blank (parts : list Part) :
  Forall blank (part_text <$> List.filter is_text_part parts)
  <-> (forall content, text_part content ∈ parts -> blank content).
Proof.
  induction parts as [|p parts IH]; simpl.
  - split; [intros _ ? Hin; by apply elem_of_nil in Hin | constructor].
  - destruct p as [content|kind]; simpl.
    + csimpl. rewrite Forall_cons, IH. split.
      * intros [Hc Hrest] content' Hin.
        apply elem_of_cons in Hin as [[= ->] | Hin]; [done | by apply Hrest].
      * intros Hall. split; [apply Hall; left|].
        intros content' Hin. apply Hall. by right.
    + rewrite IH. split.
      * intros Hrest content' Hin.
        apply elem_of_cons in Hin as [Heq | Hin]; [discriminate | by apply Hrest].
      * intros Hall content' Hin. apply Hall. by right.
Qed.

(** X12: the copy button refuses to copy nothing.  When the message has no
    [parts], or every text part consists of white space only (other parts
    do not count), the handler raises "There's no text to copy!" and leaves
    the clipboard alone, and only then: otherwise the trimmed text is not
    empty, it is handed to the clipboard and the success toast follows. *)
Theorem copy_refuses_blank_text
    (accepts : bool) (parts : option (list Part)) (ui : CopyUI) :
  let nothing :=
    match parts with
    | None => True
    | Some parts => forall content, text_part content ∈ parts -> blank content
    end in
  (nothing ->
   onClick_copy accepts parts ui
   = {| clipboard := clipboard ui;
        copy_toasts := copy_toasts ui ++ [toast_error "There's no text to copy!"] |})
  /\ (~ nothing ->
      exists t, textFromParts parts = Some t /\ t <> []
        /\ onClick_copy accepts parts ui
           = {| clipboard := if accepts then Some t else clipboard ui;
                copy_toasts := copy_toasts ui
                               ++ [toast_success "Copied to clipboard!"] |}).
Proof.
  intros nothing. subst nothing. unfold onClick_copy, textFromParts.
  destruct parts as [parts|]; [|by split].
  set (t := trim (join [10%N] (part_text <$> List.filter is_text_part parts))).
  assert (Hiff : t = [] <->
            forall content, text_part content ∈ parts -> blank content).
  { unfold t. by rewrite trim_nil_iff, join_blank, text_parts_blank. }
  split.
  - intros Hn. apply Hiff in Hn. by rewrite Hn.
  - intros Hn. exists t.
    destruct t as [|c rest] eqn:Ht; [by destruct Hn; apply Hiff|].
    split; [done|]. split; [done|]. unfold copyToClipboard.
    by destruct accepts.
Qed.

Lemma copy_refuses_blank_text_witness :
  onClick_copy true (Some blank_parts) empty_copy_ui
  = {| clipboard := None;
       copy_toasts := [toast_error "There's no text to copy!"] |}.
Proof.
  apply (proj1 (copy_refuses_blank_text true (Some blank_parts) empty_copy_ui)).
  intros content Hin.
  unfold blank_parts in Hin.
  repeat (apply elem_of_cons in Hin as [Hin | Hin];
          [first [discriminate Hin
                 | injection Hin as ->; by repeat constructor]|]).
  by apply elem_of_nil in Hin.
Defined.

(** X13: what reaches the clipboard is trimmed text.  Whenever the handler
    writes the clipboard, the text written is not empty, starts and ends
    with a code unit that is not white space, and trimming it again changes
    nothing; parts that are not text parts contribute nothing to it. *)
Theorem copied_text_is_trimmed
    (parts : list Part) (ui : CopyUI) (t : jsstring) :
  clipboard (onClick_copy true (Some parts) ui) = Some t ->
  clipboard ui <> Some t ->
  textFromParts (Some parts) = Some t
  /\ (exists c rest, t = c :: rest /\ isWhiteSpace c = false)
  /\ (exists front c, t = front ++ [c] /\ isWhiteSpace c = false)
  /\ trim t = t
  /\ textFromParts (Some (List.filter is_text_part parts)) = Some t.
Proof.
  unfold onClick_copy, textFromParts.
  set (t0 := trim (join [10%N] (part_text <$> List.filter is_text_part parts))).
  intros Hc Hold.
  assert (Ht : t0 = t /\ t0 <> []).
  { destruct t0 as [|c rest] eqn:Ht0; simpl in Hc; [congruence|].
    split; [congruence | done]. }
  destruct Ht as [<- Hne].
  destruct (trim_ends _ Hne) as [Hhead Hlast].
  split; [done|]. split; [exact Hhead|]. split; [exact Hlast|].
  split; [apply trim_idemp|].
  f_equal. unfold t0. do 3 f_equal.
  clear. induction parts as [|p parts IH]; [done|]. simpl.
  destruct p; simpl; by rewrite IH.
Qed.

Lemma copied_text_is_trimmed_witness :
  textFromParts (Some hello_parts) = Some [72; 105; 10; 33]%N.
Proof.
  apply (copied_text_is_trimmed hello_parts empty_copy_ui [72; 105; 10; 33]%N);
    [reflexivity | discriminate].
Defined.

(** X14: the copy handler does not look at what [copyToClipboard] reports.
    When the clipboard refuses the text, the clipboard is unchanged and the
    toasts are the same as when it accepts: "Copied to clipboard!" is shown
    for every text that is not blank. *)
Theorem copy_reports_success_unchecked
    (parts : option (list Part)) (ui : CopyUI) :
  copy_toasts (onClick_copy false parts ui) = copy_toasts (onClick_copy true parts ui)
  /\ clipboard (onClick_copy false parts ui) = clipboard ui
  /\ (forall t, textFromParts parts = Some t -> t <> [] ->
      copy_toasts (onClick_copy false parts ui)
      = copy_toasts ui ++ [toast_success "Copied to clipboard!"]).
Proof.
  unfold onClick_copy.
  destruct (textFromParts parts) as [[|c rest]|]; simpl; try done.
  split; [done|]. split; [done|]. intros t [= <-] Hne. done.
Qed.

Lemma copy_reports_success_unchecked_witness :
  copy_toasts (onClick_copy false (Some hello_parts) empty_copy_ui)
  = [toast_success "Copied to clipboard!"]
  /\ clipboard (onClick_copy false (Some hello_parts) empty_copy_ui) = None.
Proof.
  destruct (copy_reports_success_unchecked (Some hello_parts) empty_copy_ui)
    as (_ & Hclip & Htoast).
  split; [|exact Hclip].
  apply (Htoast [72; 105; 10; 33]%N); [reflexivity | discriminate].
Defined.

(* ===================================================================== *)
(** * Further properties: the landing-page navigation                     *)
(* ===================================================================== *)

(** X15: [LeftNav] always selects a listed version.  For every pathname,
    also [null], the version it selects (initially and in its effect) is
    the url of an entry of [versions]: the pathname itself when it is
    listed, and the url of the first entry, ["/"], for every other
    pathname, so [versions[0]] is never read out of range and the
    selection is never empty. *)
Theorem LeftNav_selects_a_listed_version (pathname : option string) :
  let selected := LeftNav_selectedVersion pathname in
  (exists version, version ∈ versions /\ selected = url version)
  /\ selected <> ""
  /\ (forall version, version ∈ versions -> pathname = Some (url version) ->
      selected = url version)
  /\ ((forall version, version ∈ versions -> pathname <> Some (url version)) ->
      selected = "/").
Proof.
  intros selected. subst selected.
  assert (Hcases : LeftNav_selectedVersion pathname = "/"
                   \/ LeftNav_selectedVersion pathname = "/version2").
  { unfold LeftNav_selectedVersion, versions_find, versions.
    destruct pathname as [x|]; [|by left]. simpl.
    destruct (bool_decide (_ = x)); [by left|].
    destruct (bool_decide (_ = x)); [by right | by left]. }
  split; [|split; [|split]].
  - destruct Hcases as [-> | ->].
    + exists {| label := "Landing page 1"; url := "/" |}.
      split; [left | done].
    + exists {| label := "Landing page 2"; url := "/version2" |}.
      split; [right; left | done].
  - by destruct Hcases as [-> | ->].
  - intros version Hin ->. unfold versions in Hin.
    apply elem_of_cons in Hin as [-> | Hin]; [done|].
    apply elem_of_cons in Hin as [-> | Hin]; [done|].
    by apply elem_of_nil in Hin.
  - intros Hnot. unfold LeftNav_selectedVersion, versions_find, versions.
    destruct pathname as [x|]; [|done]. simpl.
    destruct (decide ("/" = x)) as [<- | Hne1].
    { by destruct (Hnot {| label := "Landing page 1"; url := "/" |});
        [left|]. }
    rewrite (bool_decide_eq_false_2 _ Hne1).
    destruct (decide ("/version2" = x)) as [<- | Hne2].
    { by destruct (Hnot {| label := "Landing page 2"; url := "/version2" |});
        [right; left|]. }
    by rewrite (bool_decide_eq_false_2 _ Hne2).
Qed.

Lemma LeftNav_selects_a_listed_version_witness :
  LeftNav_selectedVersion (Some "/version2") = "/version2"
  /\ LeftNav_selectedVersion (Some "/dashboard") = "/".
Proof.
  split.
  - apply (proj1 (proj2 (proj2 (LeftNav_selects_a_listed_version
                                  (Some "/version2"))))
             {| label := "Landing page 2"; url := "/version2" |});
      [right; left | reflexivity].
  - apply (proj2 (proj2 (proj2 (LeftNav_selects_a_listed_version
                                  (Some "/dashboard"))))).
    intros version Hin. unfold versions in Hin.
    repeat (apply elem_of_cons in Hin as [-> | Hin]; [discriminate|]).
    by apply elem_of_nil in Hin.
Defined.

(** X17: the trigger of [VersionSwitcher] shows the label of the listed
    version whose url is [selectedVersion], and the fallback "Select
    Landing Page" exactly when no listed version has that url. *)
Theorem VersionSwitcher_label_or_fallback (selectedVersion : string) :
  (forall version, version ∈ versions -> url version = selectedVersion ->
   VersionSwitcher_label selectedVersion = label version)
  /\ (VersionSwitcher_label selectedVersion = "Select Landing Page"
      <-> forall version, version ∈ versions -> url version <> selectedVersion).
Proof.
  unfold VersionSwitcher_label, versions_find, versions. simpl.
  destruct (decide ("/" = selectedVersion)) as [<- | Hne1].
  { split.
    - intros version Hin Hurl.
      apply elem_of_cons in Hin as [-> | Hin]; [done|].
      apply elem_of_cons in Hin as [-> | Hin]; [discriminate|].
      by apply elem_of_nil in Hin.
    - split; [discriminate|]. intros Hnot.
      by destruct (Hnot {| label := "Landing page 1"; url := "/" |}); [left|]. }
  rewrite (bool_decide_eq_false_2 _ Hne1).
  destruct (decide ("/version2" = selectedVersion)) as [<- | Hne2].
  { split.
    - intros version Hin Hurl.
      apply elem_of_cons in Hin as [-> | Hin]; [discriminate|].
      apply elem_of_cons in Hin as [-> | Hin]; [done|].
      by apply elem_of_nil in Hin.
    - split; [discriminate|]. intros Hnot.
      by destruct (Hnot {| label := "Landing page 2"; url := "/version2" |});
        [right; left|]. }
  rewrite (bool_decide_eq_false_2 _ Hne2). split.
  - intros version Hin Hurl.
    apply elem_of_cons in Hin as [-> | Hin]; [done|].
    apply elem_of_cons in Hin as [-> | Hin]; [done|].
    by apply elem_of_nil in Hin.
  - split; [|done]. intros _ version Hin.
    apply elem_of_cons in Hin as [-> | Hin]; [done|].
    apply elem_of_cons in Hin as [-> | Hin]; [done|].
    by apply elem_of_nil in Hin.
Qed.

Lemma VersionSwitcher_label_or_fallback_witness :
  VersionSwitcher_label "/version2" = "Landing page 2"
  /\ VersionSwitcher_label "/dashboard" = "Select Landing Page".
Proof.
  split.
  - apply (proj1 (VersionSwitcher_label_or_fallback "/version2")
             {| label := "Landing page 2"; url := "/version2" |});
      [right; left | reflexivity].
  - apply (proj2 (VersionSwitcher_label_or_fallback "/dashboard")).
    intros version Hin. unfold versions in Hin.
    repeat (apply elem_of_cons in Hin as [-> | Hin]; [discriminate|]).
    by apply elem_of_nil in Hin.
Defined.
